(** * Changelog aggregation of [src/run.ts]

    A shallow embedding of the text transform that [runVersion] performs on
    the changelog entries of the changed packages, and the properties of it
    that the specification states.

    [run.ts] holds two revisions of [runVersion].  The earlier one filters
    the entries on the substrings 'Major' and 'Patch' and renders each
    bucket inside a template literal ([createFeatureMarkDown],
    [createBugFixedMarkdown]).  The later one slices every entry at the
    markers "Major Changes" and "Patch Changes" ([splitContent]), stores
    the two slices in an object keyed by the package title and renders the
    buckets from [Object.entries].  They live below in [Module Filtered]
    and [Module Mapped].

    Strings are JavaScript strings: finite sequences of UTF-16 code units,
    here [list N].  The literals of the source are all ASCII and are
    written with [lit]. *)

From Stdlib Require Import String Ascii.
From Stdlib Require Import List ZArith NArith Lia Bool.
Import ListNotations.

Set Implicit Arguments.

(* ================================================================== *)
(** ** JavaScript string primitives *)
(* ================================================================== *)

Module JS.

Definition str := list N.

Definition lit (s : string) : str :=
  map N_of_ascii (list_ascii_of_string s).
Arguments lit s%_string.

Definition str_eq_dec : forall a b : str, {a = b} + {a <> b} :=
  list_eq_dec N.eq_dec.

Definition str_eqb (a b : str) : bool :=
  if str_eq_dec a b then true else false.

(** The code units that [trim], [trimStart] and the regular expression
    class [\s] treat as blank: ECMAScript WhiteSpace and LineTerminator. *)
Definition isWhiteSpace (c : N) : bool :=
  ((9 <=? c) && (c <=? 13) || (c =? 32) || (c =? 160) || (c =? 5760)
   || (8192 <=? c) && (c <=? 8202) || (c =? 8232) || (c =? 8233)
   || (c =? 8239) || (c =? 8287) || (c =? 12288) || (c =? 65279))%N.

Definition NL : N := 10.

Fixpoint dropWhile (f : N -> bool) (s : str) : str :=
  match s with
  | [] => []
  | c :: s' => if f c then dropWhile f s' else s
  end.

Fixpoint takeWhile (f : N -> bool) (s : str) : str :=
  match s with
  | [] => []
  | c :: s' => if f c then c :: takeWhile f s' else []
  end.

Definition trimStart (s : str) : str := dropWhile isWhiteSpace s.
Definition trimEnd (s : str) : str := rev (dropWhile isWhiteSpace (rev s)).
Definition trim (s : str) : str := trimEnd (trimStart s).

Fixpoint startsWith (p s : str) : bool :=
  match p, s with
  | [], _ => true
  | _ :: _, [] => false
  | a :: p', b :: s' => (a =? b)%N && startsWith p' s'
  end.

(** Offset of the first occurrence of [p] in [s]. *)
Fixpoint find (p s : str) : option nat :=
  match s with
  | [] => if startsWith p [] then Some 0 else None
  | _ :: s' =>
      if startsWith p s then Some 0 else option_map S (find p s')
  end.

(** [s.indexOf(p)]: the offset, or the sentinel -1. *)
Definition indexOf (p s : str) : Z :=
  match find p s with
  | Some i => Z.of_nat i
  | None => (-1)%Z
  end.

Definition includes (p s : str) : bool :=
  negb (indexOf p s =? -1)%Z.

(** [s.slice(start, end)]; [None] is an omitted [end].  Negative
    arguments count from the end of the string. *)
Definition clampIndex (len i : Z) : Z :=
  if (i <? 0)%Z then Z.max (len + i) 0 else Z.min i len.

Definition slice (s : str) (start : Z) (oend : option Z) : str :=
  let len := Z.of_nat (length s) in
  let from := clampIndex len start in
  let to := match oend with Some e => clampIndex len e | None => len end in
  firstn (Z.to_nat (Z.max (to - from) 0)) (skipn (Z.to_nat from) s).

(** [s.replace(pat, rep)] with a string pattern: the first occurrence
    only.  The replacement texts of the source hold no [$] pattern. *)
Definition replace (pat rep s : str) : str :=
  match find pat s with
  | None => s
  | Some i => firstn i s ++ rep ++ skipn (i + length pat) s
  end.

(** [s.split(sep)].  The pieces between successive leftmost occurrences
    of [sep]; the recursion is on the length of what is left, which
    shrinks by at least [length sep] at every cut. *)
Fixpoint split_from (fuel : nat) (sep s : str) : list str :=
  match find sep s with
  | None => [s]
  | Some i =>
      firstn i s ::
      match fuel with
      | 0 => []
      | S fuel' => split_from fuel' sep (skipn (i + length sep) s)
      end
  end.

Definition split (sep s : str) : list str :=
  match sep with
  | [] => map (fun c => [c]) s
  | _ :: _ => split_from (length s) sep s
  end.

Fixpoint join (sep : str) (l : list str) : str :=
  match l with
  | [] => []
  | [x] => x
  | x :: l' => x ++ sep ++ join sep l'
  end.

(** What a template literal or [||] sees of a value that may be missing. *)
Inductive value : Type :=
| Undefined
| Str (s : str).

Definition toString (v : value) : str :=
  match v with
  | Undefined => lit "undefined"
  | Str s => s
  end.

Definition truthy (v : value) : bool :=
  match v with
  | Undefined => false
  | Str [] => false
  | Str (_ :: _) => true
  end.

Definition or (a b : value) : value := if truthy a then a else b.

(** Outcome of an expression that may throw. *)
Inductive exn : Type :=
| TypeError
| Failure (reason : str).

Inductive result (A : Type) : Type :=
| Ok (a : A)
| Throw (e : exn).
Arguments Ok {A} a.
Arguments Throw {A} e.

Definition bind {A B} (r : result A) (k : A -> result B) : result B :=
  match r with
  | Ok a => k a
  | Throw e => Throw e
  end.

(** [xs[i].trim()]: indexing past the end gives [undefined], and calling
    a method on it throws. *)
Definition index_trim (xs : list str) (i : nat) : result str :=
  match nth_error xs i with
  | Some x => Ok (trim x)
  | None => Throw TypeError
  end.

End JS.

Import JS.

Notation "x <- r ;; k" := (bind r (fun x => k))
  (at level 61, r at next level, right associativity).


Definition spaces (n : nat) : str := repeat 32%N n.

(* ================================================================== *)
(** ** Package titles and changelog entries *)
(* ================================================================== *)

(** [String.prototype.toUpperCase] and [toLowerCase] follow the Unicode
    case tables, which are no part of the repository: the title functions
    take them as parameters.  [asciiUpper] and [asciiLower] are what they
    do on ASCII text, for running the functions on examples. *)
Definition asciiUpper (s : str) : str :=
  map (fun c => if ((97 <=? c) && (c <=? 122))%N then (c - 32)%N else c) s.

Definition asciiLower (s : str) : str :=
  map (fun c => if ((65 <=? c) && (c <=? 90))%N then (c + 32)%N else c) s.

Section Titles.

Variables toUpperCase toLowerCase : str -> str.

(** [s.charAt(i)]: a string of one code unit, or the empty string. *)
Definition charAt (s : str) (i : nat) : str :=
  match nth_error s i with
  | Some c => [c]
  | None => []
  end.

(** The arrow function mapped over the words. *)
Definition capitalize (word : str) : str :=
  toUpperCase (charAt word 0) ++ toLowerCase (slice word 1 None).

(** [words.shift()] drops the first word; on an empty array it does
    nothing. *)
Definition splitAndCapitalize (s : str) : str :=
  let words := split (lit "-") s in
  let words := tl words in
  join (lit " ") (map capitalize words).

(** What [runVersion] knows of a changed package: its name and flag from
    [package.json] and the entry [getChangelogEntry] found for its
    version. *)
Record package : Type := {
  packageName : str;
  packagePrivate : bool;
  entryHighestLevel : N;
  entryContent : str
}.

Record changelogEntry : Type := {
  highestLevel : N;
  private : bool;
  content : str
}.

Definition makeEntry (pkg : package) : changelogEntry :=
  {| highestLevel := entryHighestLevel pkg;
     private := packagePrivate pkg;
     content := lit "## " ++ splitAndCapitalize (packageName pkg)
                ++ [NL; NL] ++ entryContent pkg |}.

End Titles.

(** The top of the document, the alignment of its lines, the file name
    and the formatting step are the same in both revisions. *)
Definition changelogBodyOf (toUseReleaseVersion : value) (alignedMarkdown : str)
  : str :=
  [NL] ++ lit "# Release v" ++ toString toUseReleaseVersion ++ [NL; NL]
  ++ alignedMarkdown ++ [NL].

Definition align (markdown : str) : str :=
  let lines := split [NL] markdown in
  let trimmedLines := map trimStart lines in
  join [NL] trimmedLines.

Record VersionOptions : Type := {
  releaseVersion : value;
  changelogPath : value
}.

(** The default of the destructured parameter applies when the option is
    [undefined]. *)
Definition changelogPathOf (opts : VersionOptions) : str :=
  match changelogPath opts with
  | Undefined => lit "docs/releases"
  | Str s => s
  end.

Definition fileOf (opts : VersionOptions) : str :=
  lit "v" ++ toString (releaseVersion opts) ++ lit "-changelog.md".

Definition fullChangelogPathOf (opts : VersionOptions) : str :=
  changelogPathOf opts ++ lit "/" ++ fileOf opts.

Definition toUseReleaseVersionOf (opts : VersionOptions)
  (versionFromPackageJson : value) : value :=
  or (releaseVersion opts) versionFromPackageJson.

(** What [prettier.format] hands back when it returns: a text, or, where
    [format] is asynchronous, a promise with what it settles to.  The
    code assigns the value to [changelogBody] as it comes, without
    [await]. *)
Inductive formatted : Type :=
| Text (s : str)
| Promise (settles : result str).

(** The [try] block around the formatter, with its empty [catch]:
    [prettier] stands for everything inside the block, the loading of
    the formatter, the awaited loading of its configuration and the call
    of [format]: [Throw] is an error raised inside the block, [Ok] the
    value [format] returns.  The result is the value of [changelogBody]
    after the block. *)
Definition tryFormat (prettier : str -> result formatted)
  (changelogBody : str) : formatted :=
  match prettier changelogBody with
  | Ok returned => returned
  | Throw _ => Text changelogBody
  end.

(** [await fs.writeFile(fullChangelogPath, changelogBody)]: a text is
    written to the path; a promise is no data for the file, the call is
    refused with a TypeError and nothing is written. *)
Definition writeFile (fullChangelogPath : str) (changelogBody : formatted)
  : result (str * str) :=
  match changelogBody with
  | Text body => Ok (fullChangelogPath, body)
  | Promise _ => Throw TypeError
  end.

(* ================================================================== *)
(** ** The later revision: slicing into a title-keyed object *)
(* ================================================================== *)

Module Mapped.

Record sections : Type := { major : str; patch : str }.

(** A plain object used as [Record<string, {major, patch}>]: its own
    properties in creation order, and what its prototype was replaced
    with, if it was. *)
Record record : Type := {
  own : list (str * sections);
  proto : option sections
}.

Definition emptyObject : record := {| own := []; proto := None |}.

Fixpoint upsert (k : str) (v : sections) (l : list (str * sections))
  : list (str * sections) :=
  match l with
  | [] => [(k, v)]
  | (k', v') :: l' =>
      if str_eqb k' k then (k', v) :: l' else (k', v') :: upsert k v l'
  end.

(** [obj[k] = v] on a plain object.  The key [__proto__] is the accessor
    inherited from [Object.prototype]: assigning an object to it replaces
    the prototype and creates no own property.  Any other key creates or
    updates an own property; an updated property keeps its place. *)
Definition assign (k : str) (v : sections) (obj : record) : record :=
  if str_eqb k (lit "__proto__")
  then {| own := own obj; proto := Some v |}
  else {| own := upsert k v (own obj); proto := proto obj |}.

(** Keys that are canonical array indices (0 .. 2^32-2) are enumerated
    first, in ascending numeric order. *)
Definition digit (c : N) : option N :=
  if ((48 <=? c) && (c <=? 57))%N then Some (c - 48)%N else None.

Fixpoint digits (acc : N) (s : str) : option N :=
  match s with
  | [] => Some acc
  | c :: s' =>
      match digit c with
      | Some d => digits (acc * 10 + d)%N s'
      | None => None
      end
  end.

Definition arrayIndex (k : str) : option N :=
  match k with
  | [] => None
  | c :: rest =>
      if ((c =? 48)%N && negb (length rest =? 0)) then None
      else match digits 0 k with
           | Some n => if (n <? 2 ^ 32 - 1)%N then Some n else None
           | None => None
           end
  end.

Definition isIndexKey (p : str * sections) : bool :=
  match arrayIndex (fst p) with Some _ => true | None => false end.

Definition indexOfKey (p : str * sections) : N :=
  match arrayIndex (fst p) with Some n => n | None => 0%N end.

Fixpoint insertByIndex (p : str * sections) (l : list (str * sections))
  : list (str * sections) :=
  match l with
  | [] => [p]
  | q :: l' =>
      if (indexOfKey p <=? indexOfKey q)%N then p :: l
      else q :: insertByIndex p l'
  end.

Definition sortByIndex (l : list (str * sections)) : list (str * sections) :=
  fold_right insertByIndex [] l.

(** [Object.entries(obj)]: the own properties, index keys first. *)
Definition Object_entries (obj : record) : list (str * sections) :=
  sortByIndex (filter isIndexKey (own obj))
  ++ filter (fun p => negb (isIndexKey p)) (own obj).

(** The locals [pluginName], [major] and [patch] of [splitContent] when
    it reaches the assignment. *)
Definition splitContent_locals (content : str) : str * sections :=
  let pluginName :=
    trim (replace (lit "## ") [] (hd [] (split [NL] content))) in
  let majorIndex := indexOf (lit "Major Changes") content in
  let patchIndex := indexOf (lit "Patch Changes") content in
  let major :=
    if negb (majorIndex =? -1)%Z then
      if negb (patchIndex =? -1)%Z then
        replace (lit "###") []
          (trim (slice content majorIndex (Some patchIndex)))
      else trim (slice content majorIndex None)
    else [] in
  let patch :=
    if negb (patchIndex =? -1)%Z then trim (slice content patchIndex None)
    else [] in
  (pluginName, {| major := major; patch := patch |}).

Definition splitContent (content : str) (existingObj : record) : record :=
  let '(pluginName, changes) := splitContent_locals content in
  assign pluginName changes existingObj.

(** The [for] loop over [changelogEntries]. *)
Definition pluginChangesOf (changelogEntries : list changelogEntry) : record :=
  fold_left (fun obj item => splitContent (content item) obj)
            changelogEntries emptyObject.

(** The template literal pushed for one package. *)
Definition subsection (pluginName body : str) : str :=
  [NL] ++ spaces 9 ++ lit "### " ++ pluginName ++ [NL]
  ++ spaces 9 ++ body ++ [NL] ++ spaces 6.

(** [section.split("Changes")[1].trim()]. *)
Definition afterChanges (section : str) : result str :=
  index_trim (split (lit "Changes") section) 1.

(** The [for] loop over [Object.entries(pluginChanges)], with the two
    arrays it pushes to. *)
Fixpoint renderLoop (entries : list (str * sections))
  (features bugfixes : list str) : result (list str * list str) :=
  match entries with
  | [] => Ok (features, bugfixes)
  | (pluginName, changes) :: rest =>
      features' <-
        (if negb (str_eqb (major changes) [])
         then body <- afterChanges (major changes) ;;
              Ok (features ++ [subsection pluginName body])
         else Ok features) ;;
      bugfixes' <-
        (if negb (str_eqb (patch changes) [])
         then body <- afterChanges (patch changes) ;;
              Ok (bugfixes ++ [subsection pluginName body])
         else Ok bugfixes) ;;
      renderLoop rest features' bugfixes'
  end.

Definition renderBuckets (pluginChanges : record)
  : result (list str * list str) :=
  renderLoop (Object_entries pluginChanges) [] [].

Definition markdownOf (features bugfixes : list str) : str :=
  [NL] ++ spaces 2 ++ lit "## Features" ++ [NL]
  ++ spaces 2 ++ join [NL] features ++ [NL]
  ++ spaces 2 ++ [NL]
  ++ spaces 2 ++ lit "## Bug fixes" ++ [NL]
  ++ spaces 2 ++ join [NL] bugfixes ++ [NL]
  ++ spaces 2.

Definition prBodyOf (fullChangelogPath : str) : str :=
  lit "See [" ++ fullChangelogPath
  ++ lit "](https://github.com/backstage/backstage/blob/master/"
  ++ fullChangelogPath ++ lit ") for more information." ++ [NL; NL].

(** What the text part of [runVersion] hands to the outside: the file it
    writes with [fs.writeFile] and the body of the pull request. *)
Record output : Type := {
  writtenPath : str;
  writtenBody : str;
  prBody : str
}.

Definition unformattedBody (opts : VersionOptions)
  (versionFromPackageJson : value) (features bugfixes : list str) : str :=
  changelogBodyOf (toUseReleaseVersionOf opts versionFromPackageJson)
                  (align (markdownOf features bugfixes)).

(** The value of [changelogBody] before the formatting step. *)
Definition documentOf (opts : VersionOptions) (versionFromPackageJson : value)
  (changelogEntries : list changelogEntry) : result str :=
  let pluginChanges := pluginChangesOf changelogEntries in
  buckets <- renderBuckets pluginChanges ;;
  let '(features, bugfixes) := buckets in
  Ok (unformattedBody opts versionFromPackageJson features bugfixes).

Definition runVersion (opts : VersionOptions) (versionFromPackageJson : value)
  (prettier : str -> result formatted)
  (changelogEntries : list changelogEntry) : result output :=
  changelogBody <- documentOf opts versionFromPackageJson changelogEntries ;;
  let fullChangelogPath := fullChangelogPathOf opts in
  let changelogBody := tryFormat prettier changelogBody in
  written <- writeFile fullChangelogPath changelogBody ;;
  Ok {| writtenPath := fst written;
        writtenBody := snd written;
        prBody := prBodyOf fullChangelogPath |}.

End Mapped.

(* ================================================================== *)
(** ** The earlier revision: filtering on 'Major' and 'Patch' *)
(* ================================================================== *)

Module Filtered.

Definition notNL (c : N) : bool := negb (c =? NL)%N.

(** The regular expression [/##\s*([^\n]+)/].  After the two hashes the
    star takes every blank it can and gives them back one by one until
    the group, which wants at least one code unit other than a line feed,
    can start; the group then runs to the end of the line. *)
Definition groupAt (rest : str) (k : nat) : option str :=
  match skipn k rest with
  | [] => None
  | c :: t => if notNL c then Some (c :: takeWhile notNL t) else None
  end.

Fixpoint backtrack (rest : str) (k : nat) : option str :=
  match groupAt rest k with
  | Some g => Some g
  | None =>
      match k with
      | 0 => None
      | S k' => backtrack rest k'
      end
  end.

Definition matchHere (s : str) : option str :=
  if startsWith (lit "##") s then
    let rest := skipn 2 s in
    backtrack rest (length (takeWhile isWhiteSpace rest))
  else None.

(** [s.match(...)]: the first offset at which the expression matches;
    the result is the group, [match[1]]. *)
Fixpoint matchGroup (s : str) : option str :=
  match matchHere s with
  | Some g => Some g
  | None =>
      match s with
      | [] => None
      | _ :: s' => matchGroup s'
      end
  end.

(** The callback of [bugFixes.map] and of [features.map]; the two are
    the same text. *)
Definition subsection (b : changelogEntry) : result str :=
  let pluginName :=
    match matchGroup (content b) with
    | Some g => g
    | None => lit "null"
    end in
  let changes := split (lit "Changes") (content b) in
  body <- index_trim changes 1 ;;
  Ok ([NL] ++ spaces 10 ++ lit "### " ++ pluginName ++ [NL; NL] ++ [NL]
      ++ [NL] ++ spaces 10 ++ body ++ [NL] ++ spaces 8).

(** [xs.map(f)] where [f] may throw: the first failure ends the loop. *)
Fixpoint mapM (f : changelogEntry -> result str) (xs : list changelogEntry)
  : result (list str) :=
  match xs with
  | [] => Ok []
  | x :: xs' => y <- f x ;; ys <- mapM f xs' ;; Ok (y :: ys)
  end.

Definition bugFixesOf (changelogEntries : list changelogEntry) :=
  filter (fun c => includes (lit "Patch") (content c)) changelogEntries.

Definition featuresOf (changelogEntries : list changelogEntry) :=
  filter (fun c => includes (lit "Major") (content c)) changelogEntries.

(** An array inside a template literal is joined with commas. *)
Definition createBugFixedMarkdown (bugFixes : list changelogEntry)
  : result str :=
  subs <- mapM subsection bugFixes ;;
  Ok ([NL] ++ spaces 6 ++ lit "## Bug fixes" ++ [NL]
      ++ spaces 6 ++ join (lit ",") subs ++ [NL] ++ spaces 4).

Definition createFeatureMarkDown (features : list changelogEntry)
  : result str :=
  subs <- mapM subsection features ;;
  Ok ([NL] ++ spaces 6 ++ lit "## Features" ++ [NL]
      ++ spaces 6 ++ join (lit ",") subs ++ [NL] ++ spaces 4).

Definition markdownOf (changelogEntries : list changelogEntry) : result str :=
  f <- createFeatureMarkDown (featuresOf changelogEntries) ;;
  b <- createBugFixedMarkdown (bugFixesOf changelogEntries) ;;
  Ok (f ++ [NL; NL] ++ b).

Definition unformattedBody (opts : VersionOptions)
  (versionFromPackageJson : value) (changelogEntries : list changelogEntry)
  : result str :=
  markdown <- markdownOf changelogEntries ;;
  Ok (changelogBodyOf (toUseReleaseVersionOf opts versionFromPackageJson)
                      (align markdown)).

(** The file [runVersion] writes. *)
Definition runVersion (opts : VersionOptions) (versionFromPackageJson : value)
  (prettier : str -> result formatted)
  (changelogEntries : list changelogEntry) : result (str * str) :=
  changelogBody <- unformattedBody opts versionFromPackageJson
                                   changelogEntries ;;
  writeFile (fullChangelogPathOf opts) (tryFormat prettier changelogBody).

End Filtered.

(* ================================================================== *)
(** ** Notions the statements use *)
(* ================================================================== *)

(** [p] occurs in [s]. *)
Definition contains (p s : str) : Prop :=
  exists a b, s = a ++ p ++ b.

(** No line feed in [s]. *)
Definition oneLine (s : str) : Prop := ~ In NL s.

(** The pieces of [s] between the occurrences of one code unit, by
    recursion on [s]; [split [c]] computes the same list
    ([split_single]). *)
Fixpoint pieces (c : N) (s : str) : list str :=
  match s with
  | [] => [[]]
  | x :: s' =>
      if (x =? c)%N then [] :: pieces c s'
      else match pieces c s' with
           | h :: t => (x :: h) :: t
           | [] => [[x]]
           end
  end.

(** The title and the two sections [splitContent] computes for an
    entry. *)
Definition titleOf (e : changelogEntry) : str :=
  fst (Mapped.splitContent_locals (content e)).

Definition sectionsOf (e : changelogEntry) : Mapped.sections :=
  snd (Mapped.splitContent_locals (content e)).

(** Lookup among the own properties. *)
Fixpoint getOwn (k : str) (l : list (str * Mapped.sections))
  : option Mapped.sections :=
  match l with
  | [] => None
  | (k', v) :: l' => if str_eqb k' k then Some v else getOwn k l'
  end.

(** The last entry of the sequence that carries the title [t]. *)
Definition lastTitled (t : str) (entries : list changelogEntry)
  : option changelogEntry :=
  List.find (fun e => str_eqb (titleOf e) t) (rev entries).

(** A section as [splitContent] leaves it: empty, or opening with its
    marker. *)
Definition wellFormed (v : Mapped.sections) : Prop :=
  (Mapped.major v = [] \/
   startsWith (lit "Major Changes") (Mapped.major v) = true)
  /\ (Mapped.patch v = [] \/
      startsWith (lit "Patch Changes") (Mapped.patch v) = true).

(** [section.split("Changes")[1].trim()] where it has a value. *)
Definition bodyOf (section : str) : str :=
  trim (nth 1 (split (lit "Changes") section) []).

(** The text up to the next occurrence of [p], or all of it. *)
Definition upToNext (p s : str) : str :=
  match find p s with
  | Some j => firstn j s
  | None => s
  end.

(** The distinct elements of a list in the order in which they first
    occur. *)
Definition addNew (acc : list str) (x : str) : list str :=
  if existsb (str_eqb x) acc then acc else acc ++ [x].

Definition firstOccurrences (l : list str) : list str :=
  fold_left addNew l [].

(* ================================================================== *)
(** ** Regular expressions *)
(* ================================================================== *)

(** The fragment of the regular expressions of the file: literals,
    greedy repetitions of a class of code units, sequence, alternation
    and capture groups.  [matchAt] is the backtracking matcher of the
    language: a repetition first takes all it can and gives back one
    code unit at a time, an alternation tries its left side first, and
    what follows an expression is its continuation. *)
Module Regex.

Inductive regex : Type :=
| Lit (p : str)
| Rep (f : N -> bool) (least : nat)
| Seq (a b : regex)
| Alt (a b : regex)
| Group (i : nat) (r : regex).

Definition captures := list (nat * str).

Section Matcher.

Variable R : Type.

(** The continuation after [n], [n-1], ... down to [least] code units
    of the repetition. *)
Fixpoint tryLengths (k : str -> option R) (s : str) (least n : nat)
  : option R :=
  match k (skipn n s) with
  | Some r => Some r
  | None =>
      match n with
      | 0 => None
      | S n' => if n' <? least then None else tryLengths k s least n'
      end
  end.

Fixpoint matchAt (r : regex) (s : str) (caps : captures)
  (k : str -> captures -> option R) : option R :=
  match r with
  | Lit p => if startsWith p s then k (skipn (length p) s) caps else None
  | Rep f least =>
      let n := length (takeWhile f s) in
      if n <? least then None
      else tryLengths (fun s' => k s' caps) s least n
  | Seq a b => matchAt a s caps (fun s' caps' => matchAt b s' caps' k)
  | Alt a b =>
      match matchAt a s caps k with
      | Some x => Some x
      | None => matchAt b s caps k
      end
  | Group i r =>
      matchAt r s caps
        (fun s' caps' =>
           k s' ((i, firstn (length s - length s') s) :: caps'))
  end.

End Matcher.

(** [s.match(r)] for an expression without the global flag: the match
    at the first offset that has one; the result is its groups. *)
Fixpoint exec (r : regex) (s : str) : option captures :=
  match matchAt r s [] (fun _ caps => Some caps) with
  | Some caps => Some caps
  | None =>
      match s with
      | [] => None
      | _ :: s' => exec r s'
      end
  end.

Fixpoint group (i : nat) (caps : captures) : option str :=
  match caps with
  | [] => None
  | (j, x) :: caps' => if Nat.eqb i j then Some x else group i caps'
  end.

End Regex.

(* ================================================================== *)
(** ** Commands, [runPublish] and [createRelease] *)
(* ================================================================== *)

(** [script.split(/\s+/)]: the pieces between the maximal runs of
    blanks; [blank] tells that the code unit before was a blank. *)
Fixpoint splitBlanks (blank : bool) (s : str) : list str :=
  match s with
  | [] => [[]]
  | c :: s' =>
      if isWhiteSpace c then
        if blank then splitBlanks true s' else [] :: splitBlanks true s'
      else
        match splitBlanks false s' with
        | h :: t => (c :: h) :: t
        | [] => [[c]]
        end
  end.

(** A call of [exec] or [execWithOutput]. *)
Record execCall : Type := { command : str; args : list str }.

(** [let [command, ...args] = script.split(/\s+/)]. *)
Definition scriptCall (script : str) : execCall :=
  let words := splitBlanks false script in
  {| command := hd [] words; args := tl words |}.

(** The command [runVersion] runs: the script if there is one, else the
    changesets CLI, whose path [resolveFrom] gives and whose command
    depends on [semver.lt(version, "2.0.0")]; both are taken as given. *)
Definition versionCall (script : value) (cliPath : str) (olderThan2 : bool)
  : execCall :=
  if truthy script then scriptCall (toString script)
  else {| command := lit "node";
          args := [cliPath;
                   if olderThan2 then lit "bump" else lit "version"] |}.

Module Publish.

(** An error as the handlers of the file look at it. *)
Record jsError : Type := { code : value; message : str }.

Inductive outcome (A : Type) : Type :=
| Resolved (a : A)
| Rejected (err : jsError).
Arguments Resolved {A} a.
Arguments Rejected {A} err.

(** [new Error(message)]. *)
Definition newError (message : str) : jsError :=
  {| code := Undefined; message := message |}.

(** A package as [getPackages] returns it. *)
Record Package : Type := {
  dir : str;
  name : str;
  version : str
}.

(** The argument of [octokit.repos.createRelease], without the
    repository. *)
Record releaseCall : Type := {
  release_name : str;
  tag_name : str;
  body : str;
  prerelease : bool
}.

(** What [getChangelogEntry] returns when it finds the version. *)
Record foundEntry : Type := {
  foundContent : str;
  foundHighestLevel : N
}.

Section CreateRelease.

(** The file system, the changelog parser of [./utils] and the API are
    taken as given; each may fail. *)
Variable readChangelog : Package -> outcome str.
Variable getChangelogEntry : str -> str -> outcome (option foundEntry).
Variable apiCreateRelease : releaseCall -> outcome unit.

(** The body of the [try] block, with the calls of the API it makes. *)
Definition attemptRelease (pkg : Package) (tagName : str)
  : outcome unit * list releaseCall :=
  match readChangelog pkg with
  | Rejected err => (Rejected err, [])
  | Resolved changelog =>
      match getChangelogEntry changelog (version pkg) with
      | Rejected err => (Rejected err, [])
      | Resolved None =>
          (Rejected
             (newError (lit "Could not find changelog entry for "
                        ++ name pkg ++ lit "@" ++ version pkg)), [])
      | Resolved (Some changelogEntry) =>
          let call := {| release_name := tagName;
                         tag_name := tagName;
                         body := foundContent changelogEntry;
                         prerelease := includes (lit "-") (version pkg) |} in
          (apiCreateRelease call, [call])
      end
  end.

(** [createRelease]: the handler lets every error through but those
    whose code is "ENOENT". *)
Definition createRelease (pkg : Package) (tagName : str)
  : outcome unit * list releaseCall :=
  let '(attempt, calls) := attemptRelease pkg tagName in
  match attempt with
  | Resolved u => (Resolved u, calls)
  | Rejected err =>
      match code err with
      | Str c => if str_eqb c (lit "ENOENT") then (Resolved tt, calls)
                 else (Rejected err, calls)
      | Undefined => (Rejected err, calls)
      end
  end.

End CreateRelease.

(** [/New tag:\s+(@[^/]+\/[^@]+|[^/]+)@([^\s]+)/] *)
Definition newTagRegex : Regex.regex :=
  Regex.Seq (Regex.Lit (lit "New tag:"))
   (Regex.Seq (Regex.Rep isWhiteSpace 1)
     (Regex.Seq
       (Regex.Group 1
          (Regex.Alt
             (Regex.Seq (Regex.Lit (lit "@"))
               (Regex.Seq (Regex.Rep (fun c => negb (c =? 47)%N) 1)
                 (Regex.Seq (Regex.Lit (lit "/"))
                            (Regex.Rep (fun c => negb (c =? 64)%N) 1))))
             (Regex.Rep (fun c => negb (c =? 47)%N) 1)))
       (Regex.Seq (Regex.Lit (lit "@"))
          (Regex.Group 2 (Regex.Rep (fun c => negb (isWhiteSpace c)) 1))))).

(** [/New tag:/] *)
Definition rootTagRegex : Regex.regex := Regex.Lit (lit "New tag:").

(** [new Map(packages.map(x => [x.packageJson.name, x])).get(pkgName)]:
    of two packages with one name the map keeps the later. *)
Definition packagesByName_get (packages : list Package) (pkgName : str)
  : option Package :=
  List.find (fun x => str_eqb (name x) pkgName) (rev packages).

Definition notFoundMessage (pkgName : str) : str :=
  lit "Package " ++ [34%N] ++ pkgName ++ [34%N] ++ lit " not found."
  ++ lit "This is probably a bug in the action, please open an issue".

Definition noPackageMessage : str :=
  lit "No package found."
  ++ lit "This is probably a bug in the action, please open an issue".

(** The loop over the lines of the output in a repository of several
    packages. *)
Fixpoint releasedByTags (packages : list Package) (lines : list str)
  (releasedPackages : list Package) : outcome (list Package) :=
  match lines with
  | [] => Resolved releasedPackages
  | line :: rest =>
      match Regex.exec newTagRegex line with
      | None => releasedByTags packages rest releasedPackages
      | Some caps =>
          let pkgName :=
            match Regex.group 1 caps with Some x => x | None => [] end in
          match packagesByName_get packages pkgName with
          | None => Rejected (newError (notFoundMessage pkgName))
          | Some pkg =>
              releasedByTags packages rest (releasedPackages ++ [pkg])
          end
      end
  end.

(** The loop in a repository that is one package: it stops at the first
    line with a tag. *)
Fixpoint rootTagged (lines : list str) : bool :=
  match lines with
  | [] => false
  | line :: rest =>
      match Regex.exec rootTagRegex line with
      | Some _ => true
      | None => rootTagged rest
      end
  end.

Inductive PublishResult : Type :=
| Published (publishedPackages : list (str * str))
| NotPublished.

(** A call of [createRelease] that [runPublish] makes. *)
Record releaseRequest : Type := { requestPkg : Package; requestTag : str }.

Section RunPublish.

(** The world in which the calls of [createRelease] run: [readChangelog i]
    and [apiCreateRelease i] are the file system and the API as the call
    number [i] finds them, and [settledAt i] is the moment at which that
    call settles, which the code does not decide. *)
Variable readChangelog : nat -> Package -> outcome str.
Variable getChangelogEntry : str -> str -> outcome (option foundEntry).
Variable apiCreateRelease : nat -> releaseCall -> outcome unit.
Variable settledAt : nat -> nat.

(** What the call number [i] of [createRelease] settles to. *)
Definition settled (i : nat) (request : releaseRequest) : outcome unit :=
  fst (createRelease (readChangelog i) getChangelogEntry (apiCreateRelease i)
                     (requestPkg request) (requestTag request)).

(** Of the calls from number [i] on, the one that is rejected first, with
    the moment; [first] is the first rejection among the calls before. *)
Fixpoint firstRejected (i : nat) (requests : list releaseRequest)
  (first : option (nat * jsError)) : option (nat * jsError) :=
  match requests with
  | [] => first
  | request :: rest =>
      firstRejected (S i) rest
        match settled i request with
        | Resolved _ => first
        | Rejected err =>
            match first with
            | Some (moment, _) =>
                if moment <=? settledAt i then first
                else Some (settledAt i, err)
            | None => Some (settledAt i, err)
            end
        end
  end.

(** [await Promise.all(requests.map(createRelease))]: every call is
    made; the whole resolves when all of them do and is rejected with
    the error of the call that is rejected first. *)
Definition awaitAll (requests : list releaseRequest) : outcome unit :=
  match firstRejected 0 requests None with
  | Some (_, err) => Rejected err
  | None => Resolved tt
  end.

(** [runPublish] after the publish command has run: [stdout] is what it
    printed, [tool] and [packages] what [getPackages] found.  The result
    comes with the calls of [createRelease] it has made, in the order of
    the packages; it awaits them and fails when they do. *)
Definition runPublish (createGithubReleases : bool) (tool : str)
  (packages : list Package) (stdout : str)
  : outcome (PublishResult * list releaseRequest) :=
  let lines := split [NL] stdout in
  let finish (releasedPackages : list Package)
             (requests : list releaseRequest) :=
    match releasedPackages with
    | [] => Resolved (NotPublished, requests)
    | _ :: _ =>
        Resolved (Published (map (fun pkg => (name pkg, version pkg))
                                 releasedPackages), requests)
    end in
  if negb (str_eqb tool (lit "root")) then
    match releasedByTags packages lines [] with
    | Rejected err => Rejected err
    | Resolved releasedPackages =>
        if createGithubReleases then
          let requests :=
            map (fun pkg =>
                   {| requestPkg := pkg;
                      requestTag := name pkg ++ lit "@" ++ version pkg |})
                releasedPackages in
          match awaitAll requests with
          | Rejected err => Rejected err
          | Resolved _ => finish releasedPackages requests
          end
        else finish releasedPackages []
    end
  else
    match packages with
    | [] => Rejected (newError noPackageMessage)
    | pkg :: _ =>
        if rootTagged lines then
          if createGithubReleases then
            let request := {| requestPkg := pkg;
                              requestTag := lit "v" ++ version pkg |} in
            match settled 0 request with
            | Rejected err => Rejected err
            | Resolved _ => finish [pkg] [request]
            end
          else finish [pkg] []
        else finish [] []
    end.

End RunPublish.

End Publish.

(** [/##\s*([^\n]+)/], the expression of [Filtered.matchGroup], for
    the matcher of [Regex]. *)
Definition headingRegex : Regex.regex :=
  Regex.Seq (Regex.Lit (lit "##"))
    (Regex.Seq (Regex.Rep isWhiteSpace 0)
               (Regex.Group 1 (Regex.Rep Filtered.notNL 1))).

(** No blank in [w]. *)
Definition blankFree (w : str) : Prop :=
  forallb (fun c => negb (isWhiteSpace c)) w = true.

(** The package names that the lines of the output announce, in the
    order of the lines. *)
Definition tagOf (line : str) : option str :=
  match Regex.exec Publish.newTagRegex line with
  | Some caps =>
      Some (match Regex.group 1 caps with Some x => x | None => [] end)
  | None => None
  end.

Definition tagsOf (lines : list str) : list str :=
  flat_map (fun line => match tagOf line with
                        | Some pkgName => [pkgName]
                        | None => []
                        end) lines.

(** Inputs on which the statements are run. *)
Module Examples.

Definition entry (c : str) : changelogEntry :=
  {| highestLevel := 0; private := false; content := c |}.

(** An entry with both subsections, as the changelog generator writes
    them. *)
Definition both : str :=
  lit "## Foo" ++ [NL; NL] ++ lit "### Major Changes" ++ [NL; NL]
  ++ lit "- x" ++ [NL; NL] ++ lit "### Patch Changes" ++ [NL; NL]
  ++ lit "- y" ++ [NL].

Definition unmarked : str :=
  lit "## Foo" ++ [NL; NL] ++ lit "- nothing to report".

Definition majorOnly : str :=
  lit "## Foo" ++ [NL; NL] ++ lit "### Major Changes" ++ [NL; NL]
  ++ lit "- x".

Definition otherPackage : str :=
  lit "## Bar" ++ [NL; NL] ++ lit "### Patch Changes" ++ [NL; NL]
  ++ lit "- z".

(** Two packages whose names give the same title. *)
Definition alphaMajor : str :=
  lit "## Foo" ++ [NL; NL] ++ lit "### Major Changes" ++ [NL; NL]
  ++ lit "- alpha".

Definition betaPatch : str :=
  lit "## Foo" ++ [NL; NL] ++ lit "### Patch Changes" ++ [NL; NL]
  ++ lit "- beta".

(** The package [x-__proto__] with one major change. *)
Definition protoPackage : package :=
  {| packageName := lit "x-__proto__";
     packagePrivate := false;
     entryHighestLevel := 3;
     entryContent := lit "### Major Changes" ++ [NL; NL] ++ lit "- y" |}.

Definition noHyphenPackage : package :=
  {| packageName := lit "core";
     packagePrivate := false;
     entryHighestLevel := 1;
     entryContent := lit "### Patch Changes" ++ [NL; NL] ++ lit "- y" |}.

(** No release version passed, the default directory. *)
Definition defaults : VersionOptions :=
  {| releaseVersion := Undefined; changelogPath := Undefined |}.

Definition noPrettier (body : str) : result formatted :=
  Throw (Failure (lit "Cannot find module 'prettier'")).

(** A formatter whose [format] returns a text. *)
Definition upperPrettier (body : str) : result formatted :=
  Ok (Text (asciiUpper body)).

(** A world for [createRelease]: every changelog is there and has its
    entry; the API accepts every release, or refuses every one. *)
Definition changelogThere (i : nat) (pkg : Publish.Package)
  : Publish.outcome str :=
  Publish.Resolved (lit "## 1.0.0" ++ [NL; NL] ++ lit "- x").

Definition entryThere (changelog version : str)
  : Publish.outcome (option Publish.foundEntry) :=
  Publish.Resolved (Some {| Publish.foundContent := lit "- x";
                            Publish.foundHighestLevel := 1 |}).

Definition apiAccepts (i : nat) (call : Publish.releaseCall)
  : Publish.outcome unit :=
  Publish.Resolved tt.

Definition validationFailed : Publish.jsError :=
  {| Publish.code := Undefined; Publish.message := lit "Validation Failed" |}.

Definition apiRefuses (i : nat) (call : Publish.releaseCall)
  : Publish.outcome unit :=
  Publish.Rejected validationFailed.

(** An API that refuses every release, each call with an error of its
    own. *)
Definition apiRefusesEach (i : nat) (call : Publish.releaseCall)
  : Publish.outcome unit :=
  Publish.Rejected {| Publish.code := Undefined;
                      Publish.message := Publish.tag_name call |}.

(** The calls settle in the order in which they are made, or the second
    before the first. *)
Definition inOrder (i : nat) : nat := i.

Definition secondFirst (i : nat) : nat := 1 - i.

Definition packageA : Publish.Package :=
  {| Publish.dir := lit "packages/a"; Publish.name := lit "a";
     Publish.version := lit "1.0.0" |}.

Definition packageB : Publish.Package :=
  {| Publish.dir := lit "packages/b"; Publish.name := lit "@acme/b";
     Publish.version := lit "2.0.0-rc.1" |}.

(** Formatters whose [format] returns a promise: one that is fulfilled
    with the formatted text, one that is rejected. *)
Definition asyncPrettier (body : str) : result formatted :=
  Ok (Promise (Ok (asciiUpper body))).

Definition failingAsyncPrettier (body : str) : result formatted :=
  Ok (Promise (Throw (Failure (lit "Unexpected token")))).

End Examples.

(* ================================================================== *)
(** ** The primitives on small inputs *)
(* ================================================================== *)

Example split_changes :
  split (lit "Changes") (lit "Major Changes - a Changes b")
  = [lit "Major "; lit " - a "; lit " b"].
Proof. reflexivity. Qed.

Example split_absent_marker :
  split (lit "Changes") (lit "abc") = [lit "abc"].
Proof. reflexivity. Qed.

Example split_empty_string : split (lit "-") [] = [[]].
Proof. reflexivity. Qed.

Example split_overlapping : split (lit "aa") (lit "aaa") = [[]; lit "a"].
Proof. reflexivity. Qed.

Example slice_swapped : slice (lit "abcdef") 4 (Some 2%Z) = [].
Proof. reflexivity. Qed.

Example slice_negative : slice (lit "abcdef") (-2) None = lit "ef".
Proof. reflexivity. Qed.

Example trim_both_ends : trim ([32%N; 9%N] ++ lit "a b" ++ [NL; 160%N])
                         = lit "a b".
Proof. reflexivity. Qed.

Example replace_first_only :
  replace (lit "###") [] (lit "a ### b ### c") = lit "a  b ### c".
Proof. reflexivity. Qed.

Example title_of_typical_entry :
  Mapped.splitContent_locals Examples.both
  = (lit "Foo",
     {| Mapped.major := lit "Major Changes" ++ [NL; NL] ++ lit "- x"
                        ++ [NL; NL];
        Mapped.patch := lit "Patch Changes" ++ [NL; NL] ++ lit "- y" |}).
Proof. reflexivity. Qed.

(** A patch marker in front of the major marker leaves the major
    section empty. *)
Example patch_marker_first :
  snd (Mapped.splitContent_locals
         (lit "## Foo" ++ [NL] ++ lit "Patch Changes a Major Changes b"))
  = {| Mapped.major := [];
       Mapped.patch := lit "Patch Changes a Major Changes b" |}.
Proof. reflexivity. Qed.

Example index_keys_first :
  map fst
    (Mapped.Object_entries
       (Mapped.pluginChangesOf
          (map Examples.entry
               [lit "## b"; lit "## 10"; lit "## a"; lit "## 2";
                lit "## 01"])))
  = [lit "2"; lit "10"; lit "b"; lit "a"; lit "01"].
Proof. reflexivity. Qed.

Example group_is_title :
  Filtered.matchGroup Examples.both = Some (lit "Foo").
Proof. reflexivity. Qed.

(** With an empty title the star runs over the blank lines and the
    group takes the next line. *)
Example group_past_empty_title :
  Filtered.matchGroup
    (lit "## " ++ [NL; NL] ++ lit "### Major Changes" ++ [NL] ++ lit "- x")
  = Some (lit "### Major Changes").
Proof. reflexivity. Qed.

Example group_backs_off :
  Filtered.matchGroup (lit "## " ++ [NL; NL]) = Some (lit " ").
Proof. reflexivity. Qed.

(* ================================================================== *)
(** ** Occurrences *)
(* ================================================================== *)

Section Occurrences.

Implicit Types p s t : str.

Lemma startsWith_app p t : startsWith p (p ++ t) = true.
Proof.
  induction p as [|a p IH]; simpl; [reflexivity|].
  now rewrite N.eqb_refl.
Qed.

Lemma startsWith_inv p s :
  startsWith p s = true -> s = p ++ skipn (length p) s.
Proof.
  revert s; induction p as [|a p IH]; intros s H; simpl in *.
  - reflexivity.
  - destruct s as [|b s]; [discriminate|].
    apply andb_true_iff in H as [Hab Hp].
    apply N.eqb_eq in Hab; subst b.
    simpl. f_equal. now apply IH.
Qed.

Lemma startsWith_length p s :
  startsWith p s = true -> length p <= length s.
Proof.
  intros H. apply startsWith_inv in H.
  rewrite H, length_app. lia.
Qed.

Lemma find_cons p c s :
  find p (c :: s) =
  if startsWith p (c :: s) then Some 0 else option_map S (find p s).
Proof. reflexivity. Qed.

Lemma find_Some_starts p s i :
  find p s = Some i -> startsWith p (skipn i s) = true.
Proof.
  revert i; induction s as [|c s IH]; intros i H.
  - simpl in H. destruct (startsWith p []) eqn:E; [|discriminate].
    injection H as <-. exact E.
  - rewrite find_cons in H.
    destruct (startsWith p (c :: s)) eqn:E.
    + injection H as <-. exact E.
    + destruct (find p s) as [j|]; [|discriminate].
      injection H as <-. simpl. now apply IH.
Qed.

Lemma find_Some_bound' p s i : find p s = Some i -> i <= length s.
Proof.
  revert i; induction s as [|c s IH]; intros i H.
  - simpl in H. destruct (startsWith p []); [|discriminate].
    injection H as <-. simpl; lia.
  - rewrite find_cons in H.
    destruct (startsWith p (c :: s)).
    + injection H as <-. lia.
    + destruct (find p s) as [j|] eqn:E; [|discriminate].
      injection H as <-. specialize (IH j eq_refl). simpl; lia.
Qed.

Lemma find_Some_bound p s i :
  find p s = Some i -> i + length p <= length s.
Proof.
  intros H. pose proof (find_Some_bound' _ _ H) as Hi.
  apply find_Some_starts, startsWith_length in H.
  rewrite length_skipn in H. lia.
Qed.

Lemma find_Some_decomp p s i :
  find p s = Some i -> s = firstn i s ++ p ++ skipn (i + length p) s.
Proof.
  intros H. pose proof (find_Some_starts _ _ H) as Hs.
  apply startsWith_inv in Hs.
  rewrite skipn_skipn in Hs.
  rewrite <- (firstn_skipn i s) at 1.
  f_equal. rewrite Hs at 1. f_equal. f_equal. lia.
Qed.

Lemma find_Some_first p s i j :
  find p s = Some i -> j < i -> startsWith p (skipn j s) = false.
Proof.
  revert i j; induction s as [|c s IH]; intros i j H Hj.
  - simpl in H. destruct (startsWith p []); [|discriminate].
    injection H as <-. lia.
  - rewrite find_cons in H.
    destruct (startsWith p (c :: s)) eqn:E.
    + injection H as <-. lia.
    + destruct (find p s) as [i'|] eqn:E'; [|discriminate].
      injection H as <-.
      destruct j as [|j]; [exact E|].
      simpl. apply (IH i'); [reflexivity|lia].
Qed.

Lemma find_None_all p s j :
  find p s = None -> startsWith p (skipn j s) = false.
Proof.
  revert j; induction s as [|c s IH]; intros j H.
  - simpl in H. rewrite skipn_nil.
    destruct (startsWith p []); [discriminate|reflexivity].
  - rewrite find_cons in H.
    destruct (startsWith p (c :: s)) eqn:E; [discriminate|].
    destruct (find p s) eqn:E'; [discriminate|].
    destruct j; [exact E|]. simpl. now apply IH.
Qed.

Lemma find_app_found p a b : find p (a ++ p ++ b) <> None.
Proof.
  intros H. apply (find_None_all _ _ (length a)) in H.
  rewrite skipn_app, skipn_all, Nat.sub_diag in H. simpl in H.
  now rewrite startsWith_app in H.
Qed.

Lemma find_contains p s : find p s <> None <-> contains p s.
Proof.
  split.
  - destruct (find p s) as [i|] eqn:E; [|congruence].
    intros _. apply find_Some_decomp in E.
    exists (firstn i s), (skipn (i + length p) s). exact E.
  - intros (a & b & ->). apply find_app_found.
Qed.

Lemma includes_contains p s : includes p s = true <-> contains p s.
Proof.
  rewrite <- find_contains. unfold includes, indexOf.
  destruct (find p s) as [i|]; simpl.
  - split; [congruence|intros _].
    apply negb_true_iff, Z.eqb_neq. lia.
  - split; [discriminate|congruence].
Qed.

Lemma includes_false_find p s : includes p s = false -> find p s = None.
Proof.
  unfold includes, indexOf. destruct (find p s) as [i|]; [|reflexivity].
  intros H. apply negb_false_iff, Z.eqb_eq in H. lia.
Qed.

Lemma indexOf_find p s i :
  indexOf p s = Z.of_nat i -> find p s = Some i.
Proof.
  unfold indexOf. destruct (find p s) as [j|]; intros H.
  - f_equal. lia.
  - lia.
Qed.

Lemma indexOf_absent p s : indexOf p s = (-1)%Z -> find p s = None.
Proof.
  unfold indexOf. destruct (find p s) as [j|]; intros H; [lia|reflexivity].
Qed.

End Occurrences.

(* ================================================================== *)
(** ** [split] and [join] *)
(* ================================================================== *)

Arguments split : simpl never.

Section Splitting.

Implicit Types sep s : str.

(** Any fuel at least the length of the string gives the same pieces:
    the fuel of [split] never runs out. *)
Lemma split_from_fuel sep s f1 f2 :
  sep <> [] -> length s <= f1 -> length s <= f2 ->
  split_from f1 sep s = split_from f2 sep s.
Proof.
  intros Hsep. revert s f2.
  induction f1 as [|f1 IH]; intros s f2 H1 H2.
  - destruct s; [|simpl in H1; lia].
    destruct sep as [|c sep]; [congruence|].
    destruct f2; reflexivity.
  - destruct f2 as [|f2].
    + destruct s; [|simpl in H2; lia].
      destruct sep as [|c sep]; [congruence|]. reflexivity.
    + simpl. destruct (find sep s) as [i|] eqn:E; [|reflexivity].
      f_equal. pose proof (find_Some_bound _ _ E) as Hb.
      assert (0 < length sep) by (destruct sep; [congruence|simpl; lia]).
      apply IH; rewrite length_skipn; lia.
Qed.

Lemma split_unfold c sep s :
  split (c :: sep) s =
  match find (c :: sep) s with
  | None => [s]
  | Some i => firstn i s :: split (c :: sep) (skipn (i + length (c :: sep)) s)
  end.
Proof.
  unfold split.
  destruct (find (c :: sep) s) as [i|] eqn:E.
  - pose proof (find_Some_bound _ _ E) as Hb. simpl in Hb.
    destruct (length s) as [|n] eqn:Hn; [lia|].
    cbn [split_from]. rewrite E. f_equal.
    apply split_from_fuel; [discriminate| |lia].
    rewrite length_skipn. simpl. lia.
  - destruct (length s); cbn [split_from]; now rewrite E.
Qed.

Lemma split_absent c sep s :
  find (c :: sep) s = None -> split (c :: sep) s = [s].
Proof. intros H. now rewrite split_unfold, H. Qed.

Lemma split_nonempty c sep s : split (c :: sep) s <> [].
Proof. rewrite split_unfold. destruct (find (c :: sep) s); discriminate. Qed.

(** One occurrence of the separator is enough for a second piece. *)
Lemma split_second c sep s i :
  find (c :: sep) s = Some i ->
  exists y rest, split (c :: sep) s = firstn i s :: y :: rest.
Proof.
  intros H. rewrite split_unfold, H.
  destruct (split (c :: sep) (skipn (i + length (c :: sep)) s)) as [|y rest] eqn:E.
  - now apply split_nonempty in E.
  - now exists y, rest.
Qed.

Lemma find_single c x s :
  find [c] (x :: s) =
  if (x =? c)%N then Some 0 else option_map S (find [c] s).
Proof.
  rewrite find_cons. simpl. rewrite N.eqb_sym.
  now destruct (x =? c)%N.
Qed.

Lemma split_single c s : split [c] s = pieces c s.
Proof.
  induction s as [|x s IH].
  - reflexivity.
  - rewrite split_unfold, find_single. simpl pieces.
    destruct (x =? c)%N.
    + simpl. now rewrite IH.
    + rewrite <- IH, split_unfold.
      destruct (find [c] s) as [i|]; reflexivity.
Qed.

Lemma pieces_nonempty c s : pieces c s <> [].
Proof.
  destruct s as [|x s]; simpl; [discriminate|].
  destruct (x =? c)%N; [discriminate|].
  destruct (pieces c s); discriminate.
Qed.

Lemma pieces_app c a b :
  pieces c (a ++ c :: b) = pieces c a ++ pieces c b.
Proof.
  induction a as [|x a IH]; simpl.
  - now rewrite N.eqb_refl.
  - destruct (x =? c)%N; rewrite IH; [reflexivity|].
    destruct (pieces c a) eqn:E; [now apply pieces_nonempty in E|].
    reflexivity.
Qed.

Lemma pieces_free c s : Forall (fun l => ~ In c l) (pieces c s).
Proof.
  induction s as [|x s IH]; simpl.
  - constructor; [tauto|constructor].
  - destruct (x =? c)%N eqn:E.
    + constructor; [simpl; tauto|exact IH].
    + apply N.eqb_neq in E.
      destruct (pieces c s) as [|h t].
      * constructor; [|constructor]. simpl. intuition congruence.
      * inversion IH; subst. constructor; [|assumption].
        simpl. intuition congruence.
Qed.

Lemma pieces_absent c s : ~ In c s -> pieces c s = [s].
Proof.
  induction s as [|x s IH]; simpl; intros H; [reflexivity|].
  destruct (x =? c)%N eqn:E.
  - apply N.eqb_eq in E. tauto.
  - rewrite IH by tauto. reflexivity.
Qed.

Lemma join_cons sep x l :
  l <> [] -> join sep (x :: l) = x ++ sep ++ join sep l.
Proof. destruct l; [congruence|reflexivity]. Qed.

Lemma join_app sep l1 l2 :
  l1 <> [] -> l2 <> [] ->
  join sep (l1 ++ l2) = join sep l1 ++ sep ++ join sep l2.
Proof.
  intros H1 H2. induction l1 as [|x l1 IH]; [congruence|].
  destruct l1 as [|y l1].
  - simpl app at 1. now rewrite join_cons.
  - change ((x :: y :: l1) ++ l2) with (x :: (y :: l1) ++ l2).
    rewrite join_cons by discriminate.
    rewrite IH by discriminate.
    rewrite (join_cons sep x (l:=y :: l1)) by discriminate.
    now rewrite <- !app_assoc.
Qed.

(** Splitting what [join] built, when no element holds the separator. *)
Lemma pieces_join c l :
  l <> [] -> Forall (fun x => ~ In c x) l -> pieces c (join [c] l) = l.
Proof.
  intros Hne Hall. induction l as [|x l IH]; [congruence|].
  inversion Hall; subst.
  destruct l as [|y l].
  - simpl. now apply pieces_absent.
  - rewrite join_cons by discriminate.
    change (x ++ [c] ++ join [c] (y :: l)) with (x ++ c :: join [c] (y :: l)).
    rewrite pieces_app, pieces_absent, IH by (assumption || discriminate).
    reflexivity.
Qed.

End Splitting.

(* ================================================================== *)
(** ** [trim], [trimStart] and [align] *)
(* ================================================================== *)

Section Trimming.

Lemma dropWhile_stop f l c r :
  f c = false -> dropWhile f (l ++ c :: r) = dropWhile f l ++ c :: r.
Proof.
  intros H. induction l as [|x l IH]; simpl.
  - now rewrite H.
  - destruct (f x); [exact IH|reflexivity].
Qed.

Lemma dropWhile_incl f s x : In x (dropWhile f s) -> In x s.
Proof.
  induction s as [|c s IH]; simpl; [tauto|].
  destruct (f c); simpl; tauto.
Qed.

Lemma trimStart_incl s x : In x (trimStart s) -> In x s.
Proof. apply dropWhile_incl. Qed.

Lemma trimEnd_incl s x : In x (trimEnd s) -> In x s.
Proof.
  unfold trimEnd. intros H. apply in_rev in H.
  apply dropWhile_incl in H. now apply in_rev.
Qed.

Lemma trim_incl s x : In x (trim s) -> In x s.
Proof. intros H. now apply trimStart_incl, trimEnd_incl. Qed.

(** [trimEnd] leaves everything up to a code unit that is not blank. *)
Lemma trimEnd_keep a c t :
  isWhiteSpace c = false -> trimEnd (a ++ c :: t) = a ++ c :: trimEnd t.
Proof.
  intros H. unfold trimEnd.
  rewrite rev_app_distr. simpl rev.
  rewrite <- app_assoc. simpl app.
  destruct (dropWhile isWhiteSpace (rev t)) as [|y r] eqn:E.
  - assert (Hd : dropWhile isWhiteSpace (rev t ++ c :: rev a) = c :: rev a).
    { clear -E H. induction (rev t) as [|x l IH]; simpl in *.
      - now rewrite H.
      - destruct (isWhiteSpace x); [now apply IH|discriminate]. }
    rewrite Hd. simpl. now rewrite rev_involutive.
  - assert (Hd : dropWhile isWhiteSpace (rev t ++ c :: rev a)
                 = (y :: r) ++ c :: rev a).
    { clear -E. induction (rev t) as [|x l IH]; simpl in *; [discriminate|].
      destruct (isWhiteSpace x); [now apply IH|].
      injection E as <- <-. reflexivity. }
    rewrite Hd, rev_app_distr. simpl rev.
    rewrite rev_involutive, <- !app_assoc. reflexivity.
Qed.

Lemma align_pieces markdown :
  align markdown = join [NL] (map trimStart (pieces NL markdown)).
Proof. unfold align. now rewrite split_single. Qed.

(** [align] works line by line. *)
Lemma align_app a b : align (a ++ NL :: b) = align a ++ NL :: align b.
Proof.
  rewrite !align_pieces, pieces_app, map_app.
  rewrite join_app; [reflexivity| |];
    intros H; apply map_eq_nil in H; now apply pieces_nonempty in H.
Qed.

Lemma align_line s : oneLine s -> align s = trimStart s.
Proof.
  intros H. rewrite align_pieces, pieces_absent by exact H. reflexivity.
Qed.

(** The lines of the aligned text are the lines of the text, each with
    its leading blanks removed. *)
Lemma lines_align markdown :
  split [NL] (align markdown) = map trimStart (split [NL] markdown).
Proof.
  rewrite align_pieces, !split_single.
  apply pieces_join.
  - intros H. apply map_eq_nil in H. now apply pieces_nonempty in H.
  - apply Forall_map. eapply Forall_impl; [|apply pieces_free].
    intros l Hl Hin. apply Hl. now apply trimStart_incl.
Qed.

End Trimming.

(* ================================================================== *)
(** ** [slice] at the offsets [indexOf] returns *)
(* ================================================================== *)

Section Slicing.

Lemma clampIndex_inside len i :
  (0 <= i <= len)%Z -> clampIndex len i = i.
Proof.
  intros H. unfold clampIndex.
  destruct (i <? 0)%Z eqn:E; [apply Z.ltb_lt in E; lia|lia].
Qed.

Lemma slice_to_end s i :
  i <= length s -> slice s (Z.of_nat i) None = skipn i s.
Proof.
  intros H. unfold slice. rewrite clampIndex_inside by lia.
  rewrite Nat2Z.id. apply firstn_all2. rewrite length_skipn. lia.
Qed.

Lemma slice_range s i j :
  i <= j -> j <= length s ->
  slice s (Z.of_nat i) (Some (Z.of_nat j)) = firstn (j - i) (skipn i s).
Proof.
  intros Hij Hj. unfold slice. rewrite !clampIndex_inside by lia.
  rewrite Nat2Z.id. f_equal. lia.
Qed.

Lemma slice_backwards s i j :
  j <= i -> i <= length s ->
  slice s (Z.of_nat i) (Some (Z.of_nat j)) = [].
Proof.
  intros Hji Hi. unfold slice. rewrite !clampIndex_inside by lia.
  replace (Z.to_nat (Z.max (Z.of_nat j - Z.of_nat i) 0)) with 0 by lia.
  reflexivity.
Qed.

Lemma skipn_found p s i :
  find p s = Some i -> skipn i s = p ++ skipn (i + length p) s.
Proof.
  intros H. apply find_Some_starts, startsWith_inv in H.
  now rewrite skipn_skipn, Nat.add_comm in H.
Qed.

End Slicing.

(* ================================================================== *)
(** ** The sections [splitContent] computes *)
(* ================================================================== *)

Section Markers.

Let MAJOR := lit "Major Changes".
Let PATCH := lit "Patch Changes".

(** The two markers are thirteen code units long and share no overlap:
    a patch marker that starts after the start of a major marker starts
    after its end. *)
Lemma markers_apart s i j :
  find MAJOR s = Some i -> find PATCH s = Some j -> i < j ->
  i + 13 <= j.
Proof.
  intros Hi Hj Hlt.
  pose proof (skipn_found _ _ Hi) as Hs.
  apply find_Some_starts in Hj.
  destruct (Nat.le_gt_cases (i + 13) j) as [|Hgt]; [assumption|exfalso].
  replace j with ((j - i) + i) in Hj by lia.
  rewrite <- skipn_skipn, Hs in Hj.
  remember (j - i) as d eqn:Hd.
  assert (Hd' : 0 < d < 13) by lia. clear -Hj Hd'.
  do 13 (destruct d as [|d]; [try lia; simpl in Hj; discriminate|]).
  lia.
Qed.

Lemma trim_major t : trim (MAJOR ++ t) = MAJOR ++ trimEnd t.
Proof.
  unfold trim.
  change (trimStart (MAJOR ++ t)) with (lit "Major Change" ++ 115%N :: t).
  now rewrite trimEnd_keep.
Qed.

Lemma trim_patch t : trim (PATCH ++ t) = PATCH ++ trimEnd t.
Proof.
  unfold trim.
  change (trimStart (PATCH ++ t)) with (lit "Patch Change" ++ 115%N :: t).
  now rewrite trimEnd_keep.
Qed.

(** Removing the first "###" leaves the marker in front alone. *)
Lemma replace_hashes_major t :
  startsWith MAJOR (replace (lit "###") [] (MAJOR ++ t)) = true.
Proof.
  unfold replace.
  assert (E : find (lit "###") (MAJOR ++ t)
              = option_map (Nat.add 13) (find (lit "###") t)).
  { cbn. destruct (find _ t); reflexivity. }
  rewrite E. destruct (find (lit "###") t) as [k|]; reflexivity.
Qed.

Lemma find_changes_major t : find (lit "Changes") (MAJOR ++ t) = Some 6.
Proof. reflexivity. Qed.

Lemma find_changes_patch t : find (lit "Changes") (PATCH ++ t) = Some 6.
Proof. reflexivity. Qed.

End Markers.

Section Sections.

Let MAJOR := lit "Major Changes".
Let PATCH := lit "Patch Changes".

Lemma of_nat_not_sentinel i : (Z.of_nat i =? -1)%Z = false.
Proof. apply Z.eqb_neq. lia. Qed.

(** The two sections in terms of the offsets found. *)
Lemma locals_sections content :
  snd (Mapped.splitContent_locals content) =
  {| Mapped.major :=
       match find MAJOR content, find PATCH content with
       | Some i, Some j =>
           replace (lit "###") []
             (trim (slice content (Z.of_nat i) (Some (Z.of_nat j))))
       | Some i, None => trim (slice content (Z.of_nat i) None)
       | None, _ => []
       end;
     Mapped.patch :=
       match find PATCH content with
       | Some j => trim (slice content (Z.of_nat j) None)
       | None => []
       end |}.
Proof.
  unfold Mapped.splitContent_locals, indexOf. cbn [snd].
  fold MAJOR PATCH.
  destruct (find MAJOR content) as [i|], (find PATCH content) as [j|];
    rewrite ?of_nat_not_sentinel; reflexivity.
Qed.

Lemma patch_section content j :
  find PATCH content = Some j ->
  trim (slice content (Z.of_nat j) None)
  = PATCH ++ trimEnd (skipn (j + 13) content).
Proof.
  intros H. rewrite slice_to_end by (eapply find_Some_bound'; eauto).
  rewrite (skipn_found _ _ H). apply trim_patch.
Qed.

Lemma major_section_alone content i :
  find MAJOR content = Some i ->
  trim (slice content (Z.of_nat i) None)
  = MAJOR ++ trimEnd (skipn (i + 13) content).
Proof.
  intros H. rewrite slice_to_end by (eapply find_Some_bound'; eauto).
  rewrite (skipn_found _ _ H). apply trim_major.
Qed.

Lemma major_section_before content i j :
  find MAJOR content = Some i -> find PATCH content = Some j -> i < j ->
  trim (slice content (Z.of_nat i) (Some (Z.of_nat j)))
  = MAJOR ++ trimEnd (firstn (j - i - 13) (skipn (i + 13) content)).
Proof.
  intros Hi Hj Hlt.
  pose proof (markers_apart _ Hi Hj Hlt) as Hap.
  pose proof (find_Some_bound' _ _ Hj) as Hjb.
  rewrite slice_range by lia.
  rewrite (skipn_found _ _ Hi), firstn_app.
  rewrite firstn_all2 by (simpl; lia).
  change (length MAJOR) with 13. apply trim_major.
Qed.

Lemma major_section_after content i j :
  find MAJOR content = Some i -> j <= i ->
  replace (lit "###") []
    (trim (slice content (Z.of_nat i) (Some (Z.of_nat j)))) = [].
Proof.
  intros Hi Hji.
  rewrite slice_backwards; [reflexivity|lia|].
  eapply find_Some_bound'; eauto.
Qed.

(** Every section [splitContent] stores is empty or opens with its
    marker. *)
Lemma locals_wellFormed content :
  wellFormed (snd (Mapped.splitContent_locals content)).
Proof.
  rewrite locals_sections. unfold wellFormed. cbn [Mapped.major Mapped.patch].
  fold MAJOR PATCH.
  destruct (find MAJOR content) as [i|] eqn:Hi,
           (find PATCH content) as [j|] eqn:Hj.
  - split.
    + destruct (Nat.lt_ge_cases i j) as [Hlt|Hge].
      * right. rewrite (major_section_before _ Hi Hj Hlt).
        apply replace_hashes_major.
      * left. now apply major_section_after.
    + right. rewrite (patch_section _ Hj). apply startsWith_app.
  - split; [right|now left].
    rewrite (major_section_alone _ Hi). apply startsWith_app.
  - split; [now left|right].
    rewrite (patch_section _ Hj). apply startsWith_app.
  - split; now left.
Qed.

End Sections.

(* ================================================================== *)
(** ** The object of sections *)
(* ================================================================== *)

Section Objects.

Import Mapped.

Let PROTO := lit "__proto__".

Lemma str_eqb_eq a b : str_eqb a b = true <-> a = b.
Proof. unfold str_eqb. destruct (str_eq_dec a b); split; congruence. Qed.

Lemma str_eqb_neq a b : str_eqb a b = false <-> a <> b.
Proof. unfold str_eqb. destruct (str_eq_dec a b); split; congruence. Qed.

Lemma str_eqb_refl a : str_eqb a a = true.
Proof. now apply str_eqb_eq. Qed.

Lemma getOwn_upsert_same k v l : getOwn k (upsert k v l) = Some v.
Proof.
  induction l as [|[k' v'] l IH]; simpl.
  - now rewrite str_eqb_refl.
  - destruct (str_eqb k' k) eqn:E; simpl; now rewrite E.
Qed.

Lemma getOwn_upsert_other k k' v l :
  k' <> k -> getOwn k' (upsert k v l) = getOwn k' l.
Proof.
  intros Hne. induction l as [|[k0 v0] l IH]; simpl.
  - apply not_eq_sym, str_eqb_neq in Hne. now rewrite Hne.
  - destruct (str_eqb k0 k) eqn:E; simpl.
    + apply str_eqb_eq in E; subst k0.
      apply not_eq_sym, str_eqb_neq in Hne. now rewrite Hne.
    + now rewrite IH.
Qed.

Lemma upsert_keys k v l x :
  In x (map fst (upsert k v l)) <-> x = k \/ In x (map fst l).
Proof.
  induction l as [|[k0 v0] l IH]; simpl.
  - intuition.
  - destruct (str_eqb k0 k) eqn:E; simpl.
    + apply str_eqb_eq in E; subst k0. intuition.
    + rewrite IH. intuition.
Qed.

Lemma upsert_NoDup k v l :
  NoDup (map fst l) -> NoDup (map fst (upsert k v l)).
Proof.
  induction l as [|[k0 v0] l IH]; simpl; intros H.
  - constructor; [tauto|constructor].
  - inversion H as [|? ? Hn Hd]; subst.
    destruct (str_eqb k0 k) eqn:E; simpl.
    + now constructor.
    + constructor; [|now apply IH].
      rewrite upsert_keys. apply str_eqb_neq in E. intuition.
Qed.

Lemma getOwn_In k v l : getOwn k l = Some v -> In (k, v) l.
Proof.
  induction l as [|[k0 v0] l IH]; simpl; [discriminate|].
  destruct (str_eqb k0 k) eqn:E.
  - apply str_eqb_eq in E; subst k0. intros [= ->]. now left.
  - intros H. right. now apply IH.
Qed.

Lemma In_getOwn k v l :
  NoDup (map fst l) -> In (k, v) l -> getOwn k l = Some v.
Proof.
  induction l as [|[k0 v0] l IH]; simpl; intros Hnd Hin; [tauto|].
  inversion Hnd as [|? ? Hn Hd]; subst.
  destruct Hin as [[= -> ->]|Hin].
  - now rewrite str_eqb_refl.
  - destruct (str_eqb k0 k) eqn:E.
    + apply str_eqb_eq in E; subst k0.
      exfalso. apply Hn. now apply (in_map fst _ (k, v)).
    + now apply IH.
Qed.

Lemma insertByIndex_In p q l :
  In p (insertByIndex q l) <-> p = q \/ In p l.
Proof.
  induction l as [|x l IH]; simpl.
  - intuition.
  - destruct (indexOfKey q <=? indexOfKey x)%N; simpl; [intuition|].
    rewrite IH. intuition.
Qed.

Lemma sortByIndex_In p l : In p (sortByIndex l) <-> In p l.
Proof.
  induction l as [|x l IH]; simpl; [tauto|].
  rewrite insertByIndex_In, IH. intuition.
Qed.

(** [Object.entries] lists the own properties, each once. *)
Lemma Object_entries_In p obj : In p (Object_entries obj) <-> In p (own obj).
Proof.
  unfold Object_entries.
  rewrite in_app_iff, sortByIndex_In, !filter_In.
  destruct (isIndexKey p); simpl; intuition congruence.
Qed.

Lemma pluginChangesOf_snoc es e :
  pluginChangesOf (es ++ [e]) = splitContent (content e) (pluginChangesOf es).
Proof. unfold pluginChangesOf. now rewrite fold_left_app. Qed.

Lemma splitContent_assign e obj :
  splitContent (content e) obj = assign (titleOf e) (sectionsOf e) obj.
Proof.
  unfold splitContent, titleOf, sectionsOf.
  now destruct (splitContent_locals (content e)).
Qed.

Lemma pluginChangesOf_NoDup es : NoDup (map fst (own (pluginChangesOf es))).
Proof.
  induction es as [|e es IH] using rev_ind.
  - constructor.
  - rewrite pluginChangesOf_snoc, splitContent_assign. unfold assign.
    destruct (str_eqb (titleOf e) (lit "__proto__")); simpl;
      [exact IH|now apply upsert_NoDup].
Qed.

(** What the object holds under a key: nothing under [__proto__], and
    otherwise the sections of the last entry with that title. *)
Lemma getOwn_pluginChangesOf es t :
  getOwn t (own (pluginChangesOf es)) =
  if str_eqb t PROTO then None
  else option_map sectionsOf (lastTitled t es).
Proof.
  induction es as [|e es IH] using rev_ind.
  - simpl. now destruct (str_eqb t PROTO).
  - rewrite pluginChangesOf_snoc, splitContent_assign.
    unfold lastTitled in *. rewrite rev_app_distr. simpl rev. simpl List.find.
    unfold assign. fold PROTO.
    destruct (str_eqb (titleOf e) PROTO) eqn:Ep; cbn [own].
    + rewrite IH. apply str_eqb_eq in Ep.
      destruct (str_eqb t PROTO) eqn:Et; [reflexivity|].
      destruct (str_eqb (titleOf e) t) eqn:E; [|reflexivity].
      apply str_eqb_eq in E. apply str_eqb_neq in Et. congruence.
    + destruct (str_eqb (titleOf e) t) eqn:E.
      * apply str_eqb_eq in E; subst t.
        rewrite getOwn_upsert_same, Ep. reflexivity.
      * apply str_eqb_neq in E.
        rewrite getOwn_upsert_other by congruence. exact IH.
Qed.

Lemma lastTitled_title t es e : lastTitled t es = Some e -> titleOf e = t.
Proof.
  unfold lastTitled. intros H. apply find_some in H as [_ H].
  now apply str_eqb_eq.
Qed.

Lemma lastTitled_In t es e : lastTitled t es = Some e -> In e es.
Proof.
  unfold lastTitled. intros H. apply find_some in H as [H _].
  now apply in_rev.
Qed.

(** The entry found is the given one or comes after it. *)
Lemma lastTitled_after before e after e0 :
  lastTitled (titleOf e) (before ++ e :: after) = Some e0 ->
  e0 = e \/ In e0 after.
Proof.
  unfold lastTitled. rewrite rev_app_distr. simpl rev. rewrite <- app_assoc.
  simpl app. intros H.
  induction (rev after) as [|x l IH] eqn:E in after, H |- *.
  - simpl in H. rewrite str_eqb_refl in H. left. congruence.
  - simpl in H. assert (Hx : In x after) by (apply in_rev; rewrite E; now left).
    destruct (str_eqb (titleOf x) (titleOf e)).
    + right. congruence.
    + specialize (IH (rev l)). rewrite rev_involutive in IH.
      destruct (IH eq_refl H) as [|Hin]; [now left|right].
      apply in_rev in Hin. apply in_rev. rewrite E. now right.
Qed.

Lemma entries_getOwn es k v :
  In (k, v) (Object_entries (pluginChangesOf es)) <->
  getOwn k (own (pluginChangesOf es)) = Some v.
Proof.
  rewrite Object_entries_In. split.
  - apply In_getOwn, pluginChangesOf_NoDup.
  - apply getOwn_In.
Qed.

(** Every pair [Object.entries] yields is the title and the sections of
    an entry, the last one that has the title. *)
Lemma entries_origin es k v :
  In (k, v) (Object_entries (pluginChangesOf es)) ->
  exists e, lastTitled k es = Some e /\ sectionsOf e = v.
Proof.
  rewrite entries_getOwn, getOwn_pluginChangesOf.
  destruct (str_eqb k PROTO); [discriminate|].
  destruct (lastTitled k es) as [e|]; [|discriminate].
  intros [= <-]. now exists e.
Qed.

End Objects.

(* ================================================================== *)
(** ** Rendering the buckets *)
(* ================================================================== *)

Section Rendering.

Import Mapped.

Lemma afterChanges_absent section :
  find (lit "Changes") section = None ->
  afterChanges section = Throw TypeError.
Proof.
  intros H. unfold afterChanges, index_trim.
  change (lit "Changes") with (67%N :: lit "hanges") in *.
  now rewrite split_absent.
Qed.

Lemma afterChanges_present section i :
  find (lit "Changes") section = Some i ->
  exists body, afterChanges section = Ok body.
Proof.
  intros H. unfold afterChanges, index_trim.
  change (lit "Changes") with (67%N :: lit "hanges") in *.
  destruct (split_second _ _ _ H) as (y & rest & ->).
  now exists (trim y).
Qed.

Lemma afterChanges_exn section e :
  afterChanges section = Throw e -> e = TypeError.
Proof.
  unfold afterChanges, index_trim.
  destruct (nth_error _ 1); [discriminate|congruence].
Qed.

Lemma afterChanges_major m :
  startsWith (lit "Major Changes") m = true ->
  exists body, afterChanges m = Ok body.
Proof.
  intros H. apply startsWith_inv in H. rewrite H.
  eapply afterChanges_present, find_changes_major.
Qed.

Lemma afterChanges_patch m :
  startsWith (lit "Patch Changes") m = true ->
  exists body, afterChanges m = Ok body.
Proof.
  intros H. apply startsWith_inv in H. rewrite H.
  eapply afterChanges_present, find_changes_patch.
Qed.

Lemma nonempty_eqb s : s <> [] -> negb (str_eqb s []) = true.
Proof.
  intros H. apply negb_true_iff. now apply str_eqb_neq.
Qed.

(** On sections that are empty or open with their marker the loop runs
    to its end. *)
Lemma renderLoop_ok entries features bugfixes :
  Forall (fun p => wellFormed (snd p)) entries ->
  exists features' bugfixes',
    renderLoop entries features bugfixes = Ok (features', bugfixes').
Proof.
  intros H. revert features bugfixes.
  induction H as [|[k v] entries [Hm Hp] _ IH]; intros features bugfixes.
  - now exists features, bugfixes.
  - cbn [renderLoop snd] in *.
    assert (Hf : exists f', (if negb (str_eqb (major v) [])
                 then body <- afterChanges (major v);;
                      Ok (features ++ [subsection k body])
                 else Ok features) = Ok f').
    { destruct Hm as [->|Hm]; [now exists features|].
      destruct (afterChanges_major _ Hm) as [body ->].
      destruct (negb (str_eqb (major v) [])); eexists; reflexivity. }
    assert (Hb : exists b', (if negb (str_eqb (patch v) [])
                 then body <- afterChanges (patch v);;
                      Ok (bugfixes ++ [subsection k body])
                 else Ok bugfixes) = Ok b').
    { destruct Hp as [->|Hp]; [now exists bugfixes|].
      destruct (afterChanges_patch _ Hp) as [body ->].
      destruct (negb (str_eqb (patch v) [])); eexists; reflexivity. }
    destruct Hf as [f' ->], Hb as [b' ->]. cbn [bind]. apply IH.
Qed.

(** Every pushed subsection belongs to an entry whose section is not
    empty. *)
Lemma renderLoop_origin entries :
  forall features bugfixes features' bugfixes',
  renderLoop entries features bugfixes = Ok (features', bugfixes') ->
  (forall x, In x features' ->
     In x features \/
     exists k v body, In (k, v) entries /\ major v <> []
                      /\ x = subsection k body)
  /\ (forall x, In x bugfixes' ->
     In x bugfixes \/
     exists k v body, In (k, v) entries /\ patch v <> []
                      /\ x = subsection k body).
Proof.
  induction entries as [|[k v] entries IH];
    intros features bugfixes features' bugfixes' H.
  - injection H as <- <-. split; intros x Hx; now left.
  - cbn [renderLoop] in H.
    destruct (str_eqb (major v) []) eqn:Em; cbn [negb] in H.
    + destruct (str_eqb (patch v) []) eqn:Ep; cbn [negb bind] in H.
      * destruct (IH _ _ _ _ H) as [Hf Hb].
        split; intros x Hx; [destruct (Hf x Hx) as [|(k0&v0&b0&?&?&?)]
                            |destruct (Hb x Hx) as [|(k0&v0&b0&?&?&?)]];
          [now left|right; exists k0, v0, b0; simpl; tauto
          |now left|right; exists k0, v0, b0; simpl; tauto].
      * destruct (afterChanges (patch v)) as [body|]; cbn [bind] in H;
          [|discriminate].
        apply str_eqb_neq in Ep.
        destruct (IH _ _ _ _ H) as [Hf Hb].
        split; intros x Hx.
        -- destruct (Hf x Hx) as [|(k0&v0&b0&?&?&?)]; [now left|].
           right; exists k0, v0, b0; simpl; tauto.
        -- destruct (Hb x Hx) as [Hin|(k0&v0&b0&?&?&?)].
           ++ apply in_app_iff in Hin as [|[<-|[]]]; [now left|].
              right; exists k, v, body; simpl; tauto.
           ++ right; exists k0, v0, b0; simpl; tauto.
    + apply str_eqb_neq in Em.
      destruct (afterChanges (major v)) as [bodym|]; cbn [bind] in H;
        [|discriminate].
      destruct (str_eqb (patch v) []) eqn:Ep; cbn [negb bind] in H.
      * destruct (IH _ _ _ _ H) as [Hf Hb].
        split; intros x Hx.
        -- destruct (Hf x Hx) as [Hin|(k0&v0&b0&?&?&?)].
           ++ apply in_app_iff in Hin as [|[<-|[]]]; [now left|].
              right; exists k, v, bodym; simpl; tauto.
           ++ right; exists k0, v0, b0; simpl; tauto.
        -- destruct (Hb x Hx) as [|(k0&v0&b0&?&?&?)]; [now left|].
           right; exists k0, v0, b0; simpl; tauto.
      * destruct (afterChanges (patch v)) as [body|]; cbn [bind] in H;
          [|discriminate].
        apply str_eqb_neq in Ep.
        destruct (IH _ _ _ _ H) as [Hf Hb].
        split; intros x Hx.
        -- destruct (Hf x Hx) as [Hin|(k0&v0&b0&?&?&?)].
           ++ apply in_app_iff in Hin as [|[<-|[]]]; [now left|].
              right; exists k, v, bodym; simpl; tauto.
           ++ right; exists k0, v0, b0; simpl; tauto.
        -- destruct (Hb x Hx) as [Hin|(k0&v0&b0&?&?&?)].
           ++ apply in_app_iff in Hin as [|[<-|[]]]; [now left|].
              right; exists k, v, body; simpl; tauto.
           ++ right; exists k0, v0, b0; simpl; tauto.
Qed.

Lemma renderLoop_exn entries :
  forall features bugfixes e,
  renderLoop entries features bugfixes = Throw e -> e = TypeError.
Proof.
  induction entries as [|[k v] entries IH]; intros features bugfixes e H.
  - discriminate.
  - cbn [renderLoop] in H.
    destruct (negb (str_eqb (major v) [])).
    + destruct (afterChanges (major v)) as [bm|em] eqn:Em; cbn [bind] in H;
        [|apply afterChanges_exn in Em; congruence].
      destruct (negb (str_eqb (patch v) [])).
      * destruct (afterChanges (patch v)) as [bp|ep] eqn:Ep; cbn [bind] in H;
          [eauto|apply afterChanges_exn in Ep; congruence].
      * cbn [bind] in H. eauto.
    + cbn [bind] in H. destruct (negb (str_eqb (patch v) [])).
      * destruct (afterChanges (patch v)) as [bp|ep] eqn:Ep; cbn [bind] in H;
          [eauto|apply afterChanges_exn in Ep; congruence].
      * cbn [bind] in H. eauto.
Qed.

(** One section that is not empty and lacks "Changes" makes the loop
    throw. *)
Lemma renderLoop_throws entries k v :
  In (k, v) entries ->
  (major v <> [] /\ find (lit "Changes") (major v) = None) \/
  (patch v <> [] /\ find (lit "Changes") (patch v) = None) ->
  forall features bugfixes,
  renderLoop entries features bugfixes = Throw TypeError.
Proof.
  intros Hin Hbad features bugfixes.
  destruct (renderLoop entries features bugfixes) as [[f' b']|e] eqn:E.
  - exfalso. revert features bugfixes E.
    induction entries as [|[k0 v0] entries IH]; intros features bugfixes E;
      [contradiction|].
    cbn [renderLoop] in E.
    destruct Hin as [[= -> ->]|Hin].
    + destruct Hbad as [[Hne Hf]|[Hne Hf]].
      * rewrite (nonempty_eqb Hne), (afterChanges_absent _ Hf) in E.
        discriminate.
      * rewrite (nonempty_eqb Hne), (afterChanges_absent _ Hf) in E.
        destruct (negb (str_eqb (major v) []));
          [destruct (afterChanges (major v))|]; discriminate.
    + destruct (negb (str_eqb (major v0) []));
        [destruct (afterChanges (major v0)); [|discriminate]|];
        cbn [bind] in E;
        (destruct (negb (str_eqb (patch v0) []));
         [destruct (afterChanges (patch v0)); [|discriminate]|]);
        cbn [bind] in E; eapply IH; eauto.
  - f_equal. eapply renderLoop_exn; eauto.
Qed.

Lemma firstn_incl (n : nat) (l : str) x : In x (firstn n l) -> In x l.
Proof.
  intros H. rewrite <- (firstn_skipn n l). apply in_app_iff. now left.
Qed.

Lemma skipn_incl (n : nat) (l : str) x : In x (skipn n l) -> In x l.
Proof.
  intros H. rewrite <- (firstn_skipn n l). apply in_app_iff. now right.
Qed.

Lemma replace_incl pat s x : In x (replace pat [] s) -> In x s.
Proof.
  unfold replace. destruct (find pat s) as [i|]; [|tauto].
  rewrite app_nil_l, in_app_iff.
  intros [H|H]; [eapply firstn_incl|eapply skipn_incl]; eauto.
Qed.

(** A title is the start of the first line: it holds no line feed. *)
Lemma titleOf_oneLine e : oneLine (titleOf e).
Proof.
  unfold oneLine, titleOf, splitContent_locals. cbn [fst].
  intros H. apply trim_incl, replace_incl in H.
  rewrite split_single in H.
  pose proof (pieces_free NL (content e)) as Hall.
  destruct (pieces NL (content e)) as [|h t]; [contradiction|].
  inversion Hall; subst. simpl in H. tauto.
Qed.

Lemma first_cut_unique (c : N) a b x y :
  ~ In c a -> ~ In c b -> a ++ c :: x = b ++ c :: y -> a = b.
Proof.
  revert b. induction a as [|u a IH]; intros [|w b] Ha Hb H; simpl in *.
  - reflexivity.
  - injection H as -> _. tauto.
  - injection H as -> _. tauto.
  - injection H as -> H. f_equal. apply IH; tauto.
Qed.

(** A subsection names its package. *)
Lemma subsection_title k k' body body' :
  oneLine k -> oneLine k' ->
  subsection k body = subsection k' body' -> k = k'.
Proof.
  unfold subsection. intros Hk Hk' H.
  cbn in H. injection H as H.
  eapply first_cut_unique; eauto.
Qed.

(** The sections the classifier stored never stop the rendering. *)
Lemma renderBuckets_total entries :
  exists features bugfixes,
    renderBuckets (pluginChangesOf entries) = Ok (features, bugfixes).
Proof.
  apply renderLoop_ok. apply Forall_forall. intros [k v] Hin.
  destruct (entries_origin _ _ _ Hin) as (e & _ & <-).
  apply locals_wellFormed.
Qed.

End Rendering.

(* ================================================================== *)
(** ** The entry classifier *)
(* ================================================================== *)

Section Classifier.

Import Mapped.

Let MAJOR := lit "Major Changes".
Let PATCH := lit "Patch Changes".

(** C1, as amended.  When the first "Major Changes" comes before the
    first "Patch Changes", the major section is the text from the major
    marker up to the patch marker with the blanks at its end trimmed and
    its first "###" removed, the patch section is the text from the
    patch marker to the end of the entry with the blanks at its end
    trimmed, and both are non-empty: each opens with its marker. *)
Theorem C1_sections_between_markers content :
  (0 <= indexOf (lit "Major Changes") content
     < indexOf (lit "Patch Changes") content)%Z ->
  let changes := snd (splitContent_locals content) in
  major changes =
    replace (lit "###") []
      (trim (slice content (indexOf (lit "Major Changes") content)
                   (Some (indexOf (lit "Patch Changes") content))))
  /\ patch changes =
       trim (slice content (indexOf (lit "Patch Changes") content) None)
  /\ major changes <> [] /\ patch changes <> []
  /\ startsWith (lit "Major Changes") (major changes) = true
  /\ startsWith (lit "Patch Changes") (patch changes) = true.
Proof.
  intros H changes. subst changes.
  rewrite locals_sections. cbn [major patch].
  unfold indexOf in H |- *. fold MAJOR PATCH in H |- *.
  destruct (find MAJOR content) as [i|] eqn:Hi; [|lia].
  destruct (find PATCH content) as [j|] eqn:Hj; [|lia].
  assert (Hlt : i < j) by lia.
  split; [reflexivity|]. split; [reflexivity|].
  rewrite (major_section_before _ Hi Hj Hlt), (patch_section _ Hj).
  pose proof (replace_hashes_major
                (trimEnd (firstn (j - i - 13) (skipn (i + 13) content))))
    as Hm.
  split; [|split; [|split]].
  - intros E. rewrite E in Hm. discriminate.
  - discriminate.
  - exact Hm.
  - apply startsWith_app.
Qed.

(** The statement at an entry with a major and a patch subsection. *)
Lemma C1_sections_between_markers_witness :
  (0 <= indexOf (lit "Major Changes") Examples.both
     < indexOf (lit "Patch Changes") Examples.both)%Z
  /\ major (snd (splitContent_locals Examples.both))
     = lit "Major Changes" ++ [NL; NL] ++ lit "- x" ++ [NL; NL]
  /\ patch (snd (splitContent_locals Examples.both))
     = lit "Patch Changes" ++ [NL; NL] ++ lit "- y".
Proof.
  assert (H : (0 <= indexOf (lit "Major Changes") Examples.both
                 < indexOf (lit "Patch Changes") Examples.both)%Z)
    by (vm_compute; split; [discriminate|reflexivity]).
  split; [exact H|].
  destruct (C1_sections_between_markers Examples.both H)
    as (Hm & Hp & _).
  split; [rewrite Hm|rewrite Hp]; reflexivity.
Defined.

(** C1, as first stated, fails: on an entry with both subsections the
    major section is not the text from the major marker up to the patch
    marker, which ends in a blank line and "### ", and the patch section
    is not the text to the end of the entry, which ends in a line
    feed. *)
Lemma C1_counterexample :
  (0 <= indexOf (lit "Major Changes") Examples.both
     < indexOf (lit "Patch Changes") Examples.both)%Z
  /\ major (snd (splitContent_locals Examples.both))
     <> slice Examples.both (indexOf (lit "Major Changes") Examples.both)
              (Some (indexOf (lit "Patch Changes") Examples.both))
  /\ patch (snd (splitContent_locals Examples.both))
     <> slice Examples.both (indexOf (lit "Patch Changes") Examples.both)
              None.
Proof.
  vm_compute. repeat split; discriminate.
Qed.

(** C10.  Whatever the entry, the major section [splitContent] computes
    is empty or opens with "Major Changes" (the removal of a "###" leaves
    that start alone) and the patch section is empty or opens with
    "Patch Changes".  So every section [Object.entries] hands to the
    renderer that is not empty holds "Changes", the expression
    [split("Changes")[1].trim()] has a value on it, and the rendering
    loop runs to its end on every sequence of entries. *)
Theorem C10_stored_sections_open_with_marker :
  (forall content,
     let changes := snd (splitContent_locals content) in
     (major changes = [] \/
      startsWith (lit "Major Changes") (major changes) = true)
     /\ (patch changes = [] \/
         startsWith (lit "Patch Changes") (patch changes) = true))
  /\ (forall entries k v,
        In (k, v) (Object_entries (pluginChangesOf entries)) ->
        (major v <> [] ->
           startsWith (lit "Major Changes") (major v) = true
           /\ contains (lit "Changes") (major v)
           /\ exists body, afterChanges (major v) = Ok body)
        /\ (patch v <> [] ->
            startsWith (lit "Patch Changes") (patch v) = true
            /\ contains (lit "Changes") (patch v)
            /\ exists body, afterChanges (patch v) = Ok body))
  /\ (forall entries, exists features bugfixes,
        renderBuckets (pluginChangesOf entries) = Ok (features, bugfixes)).
Proof.
  split; [|split].
  - intros content. apply locals_wellFormed.
  - intros entries k v Hin.
    destruct (entries_origin _ _ _ Hin) as (e & _ & <-).
    destruct (locals_wellFormed (content e)) as [Hm Hp].
    fold (sectionsOf e) in Hm, Hp.
    split; intros Hne.
    + destruct Hm as [Hm|Hm]; [contradiction|].
      split; [exact Hm|]. split; [|now apply afterChanges_major].
      apply startsWith_inv in Hm. rewrite Hm.
      now exists (lit "Major "), (skipn 13 (major (sectionsOf e))).
    + destruct Hp as [Hp|Hp]; [contradiction|].
      split; [exact Hp|]. split; [|now apply afterChanges_patch].
      apply startsWith_inv in Hp. rewrite Hp.
      now exists (lit "Patch "), (skipn 13 (patch (sectionsOf e))).
  - apply renderBuckets_total.
Qed.

(** The statement at an entry with both subsections. *)
Lemma C10_stored_sections_open_with_marker_witness :
  (exists body,
     afterChanges (lit "Major Changes" ++ [NL; NL] ++ lit "- x" ++ [NL; NL])
     = Ok body)
  /\ exists features bugfixes,
       renderBuckets (pluginChangesOf [Examples.entry Examples.both])
       = Ok (features, bugfixes).
Proof.
  destruct C10_stored_sections_open_with_marker as (_ & Hin & Hok).
  split; [|apply Hok].
  refine (proj2 (proj2 (proj1
    (Hin [Examples.entry Examples.both] (lit "Foo")
         {| major := lit "Major Changes" ++ [NL; NL] ++ lit "- x"
                     ++ [NL; NL];
            patch := lit "Patch Changes" ++ [NL; NL] ++ lit "- y" |}
         _) _))).
  - left. reflexivity.
  - discriminate.
Defined.

End Classifier.

(* ================================================================== *)
(** ** The bucket renderer *)
(* ================================================================== *)

Section Renderer.

Import Mapped.

(** C2.  On a text without "Changes" the expression
    [split("Changes")[1].trim()] throws a TypeError.  So the rendering
    loop of the later revision throws as soon as an entry of the object
    has such a text, not empty, as its major or as its patch section,
    and the callback of the earlier revision throws on a changelog entry
    whose content is such a text; neither leaves the package out and
    carries on. *)
Theorem C2_missing_changes_throws section :
  includes (lit "Changes") section = false ->
  afterChanges section = Throw TypeError
  /\ (section <> [] ->
      forall entries pluginName changes features bugfixes,
        In (pluginName, changes) entries ->
        major changes = section \/ patch changes = section ->
        renderLoop entries features bugfixes = Throw TypeError)
  /\ (forall b, content b = section ->
        Filtered.subsection b = Throw TypeError).
Proof.
  intros H. apply includes_false_find in H.
  split; [now apply afterChanges_absent|]. split.
  - intros Hne entries pluginName changes features bugfixes Hin Hsec.
    apply (renderLoop_throws _ _ _ Hin).
    destruct Hsec as [->| ->]; [left|right]; now split.
  - intros b Hb. unfold Filtered.subsection. rewrite Hb.
    change (lit "Changes") with (67%N :: lit "hanges") in *.
    now rewrite split_absent.
Qed.

(** The statement at the text "- fix typo". *)
Lemma C2_missing_changes_throws_witness :
  includes (lit "Changes") (lit "- fix typo") = false
  /\ afterChanges (lit "- fix typo") = Throw TypeError
  /\ renderLoop [(lit "Foo", {| major := []; patch := lit "- fix typo" |})]
                [] [] = Throw TypeError
  /\ Filtered.subsection (Examples.entry (lit "- fix typo"))
     = Throw TypeError.
Proof.
  assert (H : includes (lit "Changes") (lit "- fix typo") = false)
    by reflexivity.
  split; [exact H|].
  destruct (C2_missing_changes_throws (lit "- fix typo") H)
    as (Ha & Hl & Hs).
  split; [exact Ha|]. split.
  - eapply Hl; [discriminate|now left|now right].
  - now apply Hs.
Defined.

(** In the earlier revision an entry that mentions 'Patch' and holds no
    "Changes" stops the whole run. *)
Example filtered_run_throws :
  Filtered.runVersion Examples.defaults (Str (lit "1.2.3"))
    Examples.noPrettier
    [Examples.entry (lit "## Foo" ++ [NL; NL] ++ lit "- Patch the typo")]
  = Throw TypeError.
Proof. reflexivity. Qed.

(** C3, as amended.  An entry that holds neither marker gets the empty
    string as its major and as its patch section.  If every later entry
    with the same title holds neither marker as well, the rendering of
    the whole sequence succeeds and no subsection of the "Features" or
    of the "Bug fixes" bucket is one for that title. *)
Theorem C3_unmarked_entry_in_no_bucket before e after :
  includes (lit "Major Changes") (content e) = false ->
  includes (lit "Patch Changes") (content e) = false ->
  (forall e', In e' after -> titleOf e' = titleOf e ->
     includes (lit "Major Changes") (content e') = false
     /\ includes (lit "Patch Changes") (content e') = false) ->
  sectionsOf e = {| major := []; patch := [] |}
  /\ exists features bugfixes,
       renderBuckets (pluginChangesOf (before ++ e :: after))
       = Ok (features, bugfixes)
       /\ forall body,
            ~ In (subsection (titleOf e) body) features
            /\ ~ In (subsection (titleOf e) body) bugfixes.
Proof.
  intros Hm Hp Hafter.
  assert (Hempty : forall e0,
            includes (lit "Major Changes") (content e0) = false ->
            includes (lit "Patch Changes") (content e0) = false ->
            sectionsOf e0 = {| major := []; patch := [] |}).
  { intros e0 H1 H2. unfold sectionsOf. rewrite locals_sections.
    now rewrite (includes_false_find _ _ H1), (includes_false_find _ _ H2). }
  split; [now apply Hempty|].
  destruct (renderBuckets_total (before ++ e :: after))
    as (features & bugfixes & Hr).
  exists features, bugfixes. split; [exact Hr|].
  assert (Hkey : forall k v,
            In (k, v) (Object_entries (pluginChangesOf (before ++ e :: after))) ->
            oneLine k /\ (k = titleOf e -> major v = [] /\ patch v = [])).
  { intros k v Hin.
    destruct (entries_origin _ _ _ Hin) as (e0 & Hlast & <-).
    pose proof (lastTitled_title _ _ Hlast) as <-.
    split; [apply titleOf_oneLine|].
    intros Heq. rewrite Heq in Hlast.
    assert (Hs : sectionsOf e0 = {| major := []; patch := [] |}).
    { destruct (lastTitled_after _ _ _ Hlast) as [->|Hin0].
      - now apply Hempty.
      - destruct (Hafter e0 Hin0 Heq). now apply Hempty. }
    now rewrite Hs. }
  unfold renderBuckets in Hr.
  destruct (renderLoop_origin _ _ _ Hr) as [Hf Hb].
  intros body. split; intros Hin.
  - destruct (Hf _ Hin) as [[]|(k & v & body' & Hkv & Hne & Heq)].
    destruct (Hkey _ _ Hkv) as [Hone Hsame].
    apply subsection_title in Heq;
      [|apply titleOf_oneLine|exact Hone].
    destruct (Hsame (eq_sym Heq)). contradiction.
  - destruct (Hb _ Hin) as [[]|(k & v & body' & Hkv & Hne & Heq)].
    destruct (Hkey _ _ Hkv) as [Hone Hsame].
    apply subsection_title in Heq;
      [|apply titleOf_oneLine|exact Hone].
    destruct (Hsame (eq_sym Heq)). contradiction.
Qed.

(** The statement at an unmarked entry that follows another package. *)
Lemma C3_unmarked_entry_in_no_bucket_witness :
  sectionsOf (Examples.entry Examples.unmarked)
  = {| major := []; patch := [] |}
  /\ exists features bugfixes,
       renderBuckets
         (pluginChangesOf ([Examples.entry Examples.otherPackage]
                           ++ Examples.entry Examples.unmarked :: []))
       = Ok (features, bugfixes)
       /\ forall body,
            ~ In (subsection (titleOf (Examples.entry Examples.unmarked)) body)
                 features
            /\ ~ In (subsection (titleOf (Examples.entry Examples.unmarked)) body)
                    bugfixes.
Proof.
  apply (C3_unmarked_entry_in_no_bucket
           [Examples.entry Examples.otherPackage]
           (Examples.entry Examples.unmarked) []).
  - reflexivity.
  - reflexivity.
  - intros e' [].
Defined.

(** C3, as first stated, fails: an entry with neither marker is followed
    by an entry with the same title and a major subsection; the later
    entry overwrites the earlier one and the title heads a subsection of
    the "Features" bucket. *)
Lemma C3_counterexample :
  includes (lit "Major Changes") Examples.unmarked = false
  /\ includes (lit "Patch Changes") Examples.unmarked = false
  /\ titleOf (Examples.entry Examples.unmarked) = lit "Foo"
  /\ exists features bugfixes,
       renderBuckets
         (pluginChangesOf [Examples.entry Examples.unmarked;
                           Examples.entry Examples.majorOnly])
       = Ok (features, bugfixes)
       /\ In (subsection (lit "Foo") (lit "- x")) features.
Proof.
  split; [reflexivity|]. split; [reflexivity|]. split; [reflexivity|].
  eexists _, _. split; [vm_compute; reflexivity|].
  left. reflexivity.
Qed.

End Renderer.

(* ================================================================== *)
(** ** The object as a mapping from titles *)
(* ================================================================== *)

Section Mapping.

Import Mapped.

(** Under every title but [__proto__] the object holds the sections of
    the last entry with that title and nothing of the earlier ones. *)
Lemma title_keyed_last_wins entries t v :
  t <> lit "__proto__" ->
  (In (t, v) (Object_entries (pluginChangesOf entries)) <->
   option_map sectionsOf (lastTitled t entries) = Some v).
Proof.
  intros Ht. rewrite entries_getOwn, getOwn_pluginChangesOf.
  apply str_eqb_neq in Ht. now rewrite Ht.
Qed.

Example later_entry_overwrites :
  Object_entries
    (pluginChangesOf [Examples.entry Examples.alphaMajor;
                      Examples.entry Examples.betaPatch])
  = [(lit "Foo",
      {| major := [];
         patch := lit "Patch Changes" ++ [NL; NL] ++ lit "- beta" |})].
Proof. reflexivity. Qed.

(** C4 at the package [x-__proto__]: its title is [__proto__], its
    entry has a major section, and after the classifier has run the
    object has no property for it; the assignment went to the prototype.
    The rendered buckets are empty. *)
Theorem C4_proto_title_is_not_stored :
  titleOf (makeEntry asciiUpper asciiLower Examples.protoPackage)
  = lit "__proto__"
  /\ major (sectionsOf (makeEntry asciiUpper asciiLower Examples.protoPackage))
     = lit "Major Changes" ++ [NL; NL] ++ lit "- y"
  /\ Object_entries
       (pluginChangesOf [makeEntry asciiUpper asciiLower Examples.protoPackage])
     = []
  /\ proto (pluginChangesOf
              [makeEntry asciiUpper asciiLower Examples.protoPackage])
     = Some (sectionsOf
               (makeEntry asciiUpper asciiLower Examples.protoPackage))
  /\ renderBuckets
       (pluginChangesOf [makeEntry asciiUpper asciiLower Examples.protoPackage])
     = Ok ([], []).
Proof. repeat split; reflexivity. Qed.

End Mapping.

(* ================================================================== *)
(** ** The document and the file *)
(* ================================================================== *)

Section Document.

Import Mapped.

(** With a release version passed, the heading and the file name carry
    the same version. *)
Lemma passed_version_in_both opts versionFromPackageJson c s :
  releaseVersion opts = Str (c :: s) ->
  toString (toUseReleaseVersionOf opts versionFromPackageJson) = c :: s
  /\ fileOf opts = lit "v" ++ (c :: s) ++ lit "-changelog.md".
Proof.
  intros H. unfold toUseReleaseVersionOf, fileOf, or. rewrite H.
  split; reflexivity.
Qed.

(** C5 at a run without a release version, in a repository whose
    [package.json] says 1.2.3: the heading reads "Release v1.2.3" and
    the file is [vundefined-changelog.md]. *)
Theorem C5_file_name_without_fallback :
  Mapped.runVersion Examples.defaults (Str (lit "1.2.3"))
                    Examples.noPrettier []
  = Ok {| writtenPath := lit "docs/releases/vundefined-changelog.md";
          writtenBody :=
            [NL] ++ lit "# Release v1.2.3" ++ [NL; NL]
            ++ align (markdownOf [] []) ++ [NL];
          prBody := prBodyOf (lit "docs/releases/vundefined-changelog.md") |}.
Proof. reflexivity. Qed.

Lemma markdownOf_lines features bugfixes :
  markdownOf features bugfixes =
  [] ++ NL :: (spaces 2 ++ lit "## Features")
  ++ NL :: (spaces 2 ++ join [NL] features)
  ++ NL :: spaces 2
  ++ NL :: (spaces 2 ++ lit "## Bug fixes")
  ++ NL :: (spaces 2 ++ join [NL] bugfixes)
  ++ NL :: spaces 2.
Proof.
  unfold markdownOf. cbn [app spaces repeat].
  rewrite <- ?app_assoc. reflexivity.
Qed.

Lemma align_markdownOf features bugfixes :
  align (markdownOf features bugfixes) =
  [NL] ++ lit "## Features" ++ [NL]
  ++ align (spaces 2 ++ join [NL] features) ++ [NL; NL]
  ++ lit "## Bug fixes" ++ [NL]
  ++ align (spaces 2 ++ join [NL] bugfixes) ++ [NL].
Proof.
  rewrite markdownOf_lines.
  rewrite (align_app []).
  rewrite (align_app (spaces 2 ++ lit "## Features")).
  rewrite (align_app (spaces 2 ++ join [NL] features)).
  rewrite (align_app (spaces 2)).
  rewrite (align_app (spaces 2 ++ lit "## Bug fixes")).
  rewrite (align_app (spaces 2 ++ join [NL] bugfixes)).
  change (align []) with (@nil N).
  change (align (spaces 2)) with (@nil N).
  change (align (spaces 2 ++ lit "## Features")) with (lit "## Features").
  change (align (spaces 2 ++ lit "## Bug fixes")) with (lit "## Bug fixes").
  cbn [app]. rewrite <- ?app_assoc. reflexivity.
Qed.

(** C6.  The aligned text opens with the "## Features" line, which is
    followed by the aligned feature subsections, an empty line, the
    "## Bug fixes" line and the aligned bugfix subsections: the first
    "## Features" is at offset 1 and the first "## Bug fixes" comes
    after it.  The lines of the aligned text are, one by one, the lines
    of the text before alignment with their leading blanks removed.  The
    document is the line "# Release v" with the version, an empty line
    and the aligned text. *)
Theorem C6_assembled_document features bugfixes toUseReleaseVersion :
  let markdown := markdownOf features bugfixes in
  let alignedMarkdown := align markdown in
  alignedMarkdown =
    [NL] ++ lit "## Features" ++ [NL]
    ++ align (spaces 2 ++ join [NL] features) ++ [NL; NL]
    ++ lit "## Bug fixes" ++ [NL]
    ++ align (spaces 2 ++ join [NL] bugfixes) ++ [NL]
  /\ (indexOf (lit "## Features") alignedMarkdown = 1
      /\ 1 < indexOf (lit "## Bug fixes") alignedMarkdown)%Z
  /\ split [NL] alignedMarkdown = map trimStart (split [NL] markdown)
  /\ changelogBodyOf toUseReleaseVersion alignedMarkdown =
       [NL] ++ (lit "# Release v" ++ toString toUseReleaseVersion)
       ++ [NL; NL] ++ alignedMarkdown ++ [NL].
Proof.
  intros markdown alignedMarkdown. subst markdown alignedMarkdown.
  split; [apply align_markdownOf|]. split; [|split].
  - rewrite align_markdownOf. split; [reflexivity|].
    unfold indexOf.
    destruct (find (lit "## Bug fixes") _) as [j|] eqn:E.
    + pose proof (find_Some_starts _ _ E) as Hs.
      destruct j as [|[|j]]; [discriminate Hs|discriminate Hs|lia].
    + exfalso. revert E. apply find_contains.
      exists ([NL] ++ lit "## Features" ++ [NL]
              ++ align (spaces 2 ++ join [NL] features) ++ [NL; NL]),
             ([NL] ++ align (spaces 2 ++ join [NL] bugfixes) ++ [NL]).
      rewrite <- !app_assoc. reflexivity.
  - apply lines_align.
  - unfold changelogBodyOf. now rewrite <- !app_assoc.
Qed.

End Document.

(* ================================================================== *)
(** ** The formatting step *)
(* ================================================================== *)

Section Formatting.

Import Mapped.

(** C7, as the code has it.  Whatever the entries, the later revision
    reaches the formatting step.  If an error is thrown inside the
    [try] block, whatever the error, the run succeeds and the file gets
    the document as it was assembled; if [format] returns a text, the
    file gets that text.  In both cases the body of the pull request is
    the sentence "See [path](https://github.com/backstage/backstage/
    blob/master/path) for more information." followed by an empty line,
    with the path of the file in both places: it carries the path, not
    the text.  A [format] that returns a promise is left out here. *)
Theorem C7_formatter_failure_swallowed opts versionFromPackageJson prettier
  changelogEntries :
  exists features bugfixes,
    renderBuckets (pluginChangesOf changelogEntries) = Ok (features, bugfixes)
    /\ let document :=
         unformattedBody opts versionFromPackageJson features bugfixes in
       let path := fullChangelogPathOf opts in
       let link :=
         lit "See [" ++ path
         ++ lit "](https://github.com/backstage/backstage/blob/master/"
         ++ path ++ lit ") for more information." ++ [NL; NL] in
       (forall e,
          prettier document = Throw e ->
          Mapped.runVersion opts versionFromPackageJson prettier
                            changelogEntries
          = Ok {| writtenPath := path;
                  writtenBody := document;
                  prBody := link |})
       /\ (forall text,
             prettier document = Ok (Text text) ->
             Mapped.runVersion opts versionFromPackageJson prettier
                               changelogEntries
             = Ok {| writtenPath := path;
                     writtenBody := text;
                     prBody := link |}).
Proof.
  destruct (renderBuckets_total changelogEntries)
    as (features & bugfixes & Hr).
  exists features, bugfixes. split; [exact Hr|].
  intros document path link. subst document path link.
  unfold Mapped.runVersion, documentOf. rewrite Hr. cbn [bind].
  unfold tryFormat.
  split; intros x Hx; now rewrite Hx.
Qed.

(** The statement at a formatter that cannot be loaded and at one that
    returns a text. *)
Lemma C7_formatter_failure_swallowed_witness :
  (exists out,
     Mapped.runVersion Examples.defaults (Str (lit "1.2.3"))
                       Examples.noPrettier [Examples.entry Examples.both]
     = Ok out
     /\ Ok (writtenBody out)
        = Mapped.documentOf Examples.defaults (Str (lit "1.2.3"))
                            [Examples.entry Examples.both])
  /\ (exists out,
        Mapped.runVersion Examples.defaults (Str (lit "1.2.3"))
                          Examples.upperPrettier [Examples.entry Examples.both]
        = Ok out
        /\ Examples.upperPrettier
             (unformattedBody Examples.defaults (Str (lit "1.2.3"))
                [subsection (lit "Foo") (lit "- x")]
                [subsection (lit "Foo") (lit "- y")])
           = Ok (Text (writtenBody out))).
Proof.
  split.
  - destruct (C7_formatter_failure_swallowed
                Examples.defaults (Str (lit "1.2.3")) Examples.noPrettier
                [Examples.entry Examples.both])
      as (features & bugfixes & Hr & Hthrow & _).
    eexists. split; [apply (Hthrow _ eq_refl)|].
    unfold documentOf. rewrite Hr. reflexivity.
  - destruct (C7_formatter_failure_swallowed
                Examples.defaults (Str (lit "1.2.3")) Examples.upperPrettier
                [Examples.entry Examples.both])
      as (features & bugfixes & Hr & _ & Hreturn).
    eexists. split; [apply (Hreturn _ eq_refl)|].
    vm_compute in Hr. injection Hr as <- <-. reflexivity.
Defined.

(** C7 as the specification words it fails on one package with a major
    and a patch change.  With a formatter that cannot be loaded the
    failure is swallowed and the file gets the unformatted document, but
    the body of the pull request is the sentence with the path and does
    not contain the document.  With a [format] that returns a promise
    the run ends with the TypeError of [fs.writeFile], whether the
    promise is fulfilled (the formatter succeeded, and its output
    replaces nothing) or rejected (the formatter failed, and an error
    surfaces). *)
Lemma C7_counterexample :
  (exists out,
     Mapped.runVersion Examples.defaults (Str (lit "1.2.3"))
                       Examples.noPrettier [Examples.entry Examples.both]
     = Ok out
     /\ Ok (writtenBody out)
        = Mapped.documentOf Examples.defaults (Str (lit "1.2.3"))
                            [Examples.entry Examples.both]
     /\ prBody out
        = lit "See [docs/releases/vundefined-changelog.md]"
          ++ lit "(https://github.com/backstage/backstage/blob/master/"
          ++ lit "docs/releases/vundefined-changelog.md)"
          ++ lit " for more information." ++ [NL; NL]
     /\ includes (writtenBody out) (prBody out) = false)
  /\ Mapped.runVersion Examples.defaults (Str (lit "1.2.3"))
                       Examples.asyncPrettier [Examples.entry Examples.both]
     = Throw TypeError
  /\ Mapped.runVersion Examples.defaults (Str (lit "1.2.3"))
                       Examples.failingAsyncPrettier
                       [Examples.entry Examples.both]
     = Throw TypeError.
Proof.
  split; [|split; reflexivity].
  eexists. split; [reflexivity|].
  split; [reflexivity|]. split; reflexivity.
Qed.

Example formatter_missing :
  option_map writtenBody
    (match Mapped.runVersion Examples.defaults (Str (lit "1.2.3"))
             Examples.noPrettier [Examples.entry Examples.majorOnly] with
     | Ok out => Some out
     | Throw _ => None
     end)
  = Some ([NL] ++ lit "# Release v1.2.3" ++ [NL; NL; NL]
          ++ lit "## Features" ++ [NL; NL] ++ lit "### Foo" ++ [NL]
          ++ lit "- x" ++ [NL; NL; NL] ++ lit "## Bug fixes"
          ++ [NL; NL; NL]).
Proof. reflexivity. Qed.

End Formatting.

(* ================================================================== *)
(** ** The two revisions side by side *)
(* ================================================================== *)

Section Revisions.

Lemma changelogBodyOf_inj v a b :
  changelogBodyOf v a = changelogBodyOf v b -> a = b.
Proof.
  unfold changelogBodyOf. intros H.
  apply app_inv_head in H. rewrite !app_assoc in H.
  apply app_inv_tail in H. rewrite <- !app_assoc in H.
  now repeat apply app_inv_head in H.
Qed.

(** C8.  Two packages with the same title, the first with a major and
    the second with a patch subsection.  Both revisions produce a
    document, whatever the options and the version, and the two
    documents differ: the aligned text of the earlier revision lists the
    change of the first package, the aligned text of the later revision,
    in which the second entry has overwritten the first, does not. *)
Theorem C8_revisions_disagree :
  exists changelogEntries earlier later,
    includes (lit "- alpha") earlier = true
    /\ includes (lit "- alpha") later = false
    /\ forall opts versionFromPackageJson,
         Filtered.unformattedBody opts versionFromPackageJson changelogEntries
         = Ok (changelogBodyOf
                 (toUseReleaseVersionOf opts versionFromPackageJson) earlier)
         /\ Mapped.documentOf opts versionFromPackageJson changelogEntries
            = Ok (changelogBodyOf
                    (toUseReleaseVersionOf opts versionFromPackageJson) later)
         /\ changelogBodyOf
              (toUseReleaseVersionOf opts versionFromPackageJson) earlier
            <> changelogBodyOf
                 (toUseReleaseVersionOf opts versionFromPackageJson) later.
Proof.
  set (entries := [Examples.entry Examples.alphaMajor;
                   Examples.entry Examples.betaPatch]).
  assert (He : exists earlier,
            Filtered.markdownOf entries = Ok earlier).
  { eexists. vm_compute. reflexivity. }
  destruct He as [m1 Hm1].
  assert (Hl : exists features bugfixes,
            Mapped.renderBuckets (Mapped.pluginChangesOf entries)
            = Ok (features, bugfixes)).
  { eexists _, _. vm_compute. reflexivity. }
  destruct Hl as (fs & bs & Hfb).
  exists entries, (align m1), (align (Mapped.markdownOf fs bs)).
  assert (H1 : includes (lit "- alpha") (align m1) = true).
  { vm_compute in Hm1. injection Hm1 as <-. vm_compute. reflexivity. }
  assert (H2 : includes (lit "- alpha") (align (Mapped.markdownOf fs bs))
               = false).
  { vm_compute in Hfb. injection Hfb as <- <-. vm_compute. reflexivity. }
  split; [exact H1|]. split; [exact H2|].
  intros opts v. split; [|split].
  - unfold Filtered.unformattedBody. now rewrite Hm1.
  - unfold Mapped.documentOf. now rewrite Hfb.
  - intros E. apply changelogBodyOf_inj in E.
    rewrite E, H2 in H1. discriminate.
Qed.

End Revisions.

(* ================================================================== *)
(** ** Package titles *)
(* ================================================================== *)

Section PackageTitles.

Variables toUpperCase toLowerCase : str -> str.

Lemma find_single_absent c s : find [c] s = None -> ~ In c s.
Proof.
  induction s as [|x s IH]; [tauto|].
  rewrite find_single. destruct (x =? c)%N eqn:E; [discriminate|].
  apply N.eqb_neq in E.
  destruct (find [c] s); [discriminate|].
  intros _ [H|H]; [congruence|now apply IH].
Qed.

Lemma capitalize_word c w :
  capitalize toUpperCase toLowerCase (c :: w)
  = toUpperCase [c] ++ toLowerCase w.
Proof.
  unfold capitalize. cbn [charAt nth_error].
  change 1%Z with (Z.of_nat 1).
  now rewrite (@slice_to_end (c :: w) 1) by (simpl; lia).
Qed.

(** C9.  For a name with a hyphen the title is made of the words that
    follow the first hyphen, each with its first code unit in upper case
    and the rest in lower case, joined by single spaces.  For a name
    without a hyphen the title is empty and the first line of the entry
    is "## ". *)
Theorem C9_title_after_first_hyphen :
  (forall pre rest,
     includes (lit "-") pre = false ->
     splitAndCapitalize toUpperCase toLowerCase (pre ++ lit "-" ++ rest)
     = join (lit " ")
            (map (capitalize toUpperCase toLowerCase)
                 (split (lit "-") rest)))
  /\ (forall c w,
        capitalize toUpperCase toLowerCase (c :: w)
        = toUpperCase [c] ++ toLowerCase w)
  /\ (forall pkg,
        includes (lit "-") (packageName pkg) = false ->
        splitAndCapitalize toUpperCase toLowerCase (packageName pkg) = []
        /\ hd [] (split [NL]
                        (content (makeEntry toUpperCase toLowerCase pkg)))
           = lit "## ").
Proof.
  split; [|split].
  - intros pre rest H. apply includes_false_find in H.
    unfold splitAndCapitalize.
    change (lit "-") with [45%N] in *.
    rewrite !split_single.
    change (pre ++ [45%N] ++ rest) with (pre ++ 45%N :: rest).
    rewrite pieces_app, pieces_absent by now apply find_single_absent.
    reflexivity.
  - apply capitalize_word.
  - intros pkg H. apply includes_false_find in H.
    assert (E : splitAndCapitalize toUpperCase toLowerCase (packageName pkg)
                = []).
    { unfold splitAndCapitalize. change (lit "-") with [45%N] in *.
      now rewrite split_absent. }
    split; [exact E|].
    unfold makeEntry. cbn [content]. rewrite E, split_single.
    change (lit "## " ++ [] ++ [NL; NL] ++ entryContent pkg)
      with (lit "## " ++ NL :: (NL :: entryContent pkg)).
    rewrite pieces_app. reflexivity.
Qed.

End PackageTitles.

(** The statement at the names [backstage-plugin-foo-BAR] and [core]. *)
Lemma C9_title_after_first_hyphen_witness :
  splitAndCapitalize asciiUpper asciiLower (lit "backstage-plugin-foo-BAR")
  = lit "Plugin Foo Bar"
  /\ splitAndCapitalize asciiUpper asciiLower (lit "core") = []
  /\ hd [] (split [NL]
              (content (makeEntry asciiUpper asciiLower
                                  Examples.noHyphenPackage)))
     = lit "## ".
Proof.
  destruct (C9_title_after_first_hyphen asciiUpper asciiLower)
    as (Hwords & _ & Hnone).
  split.
  - change (lit "backstage-plugin-foo-BAR")
      with (lit "backstage" ++ lit "-" ++ lit "plugin-foo-BAR").
    rewrite (Hwords (lit "backstage") (lit "plugin-foo-BAR") eq_refl).
    reflexivity.
  - exact (Hnone Examples.noHyphenPackage eq_refl).
Defined.

(* ================================================================== *)
(** ** More on the rendered buckets *)
(* ================================================================== *)

Section Buckets.

Import Mapped.

Lemma index_trim_second c p s i :
  find (c :: p) s = Some i ->
  index_trim (split (c :: p) s) 1
  = Ok (trim (upToNext (c :: p) (skipn (i + length (c :: p)) s))).
Proof.
  intros H. rewrite split_unfold, H.
  rewrite (split_unfold c p (skipn (i + length (c :: p)) s)).
  unfold upToNext, index_trim.
  now destruct (find (c :: p) (skipn (i + length (c :: p)) s)).
Qed.

Lemma afterChanges_bodyOf section body :
  afterChanges section = Ok body -> body = bodyOf section.
Proof.
  unfold afterChanges, index_trim, bodyOf.
  destruct (nth_error (split (lit "Changes") section) 1) as [x|] eqn:E;
    [|discriminate].
  intros [= <-]. now rewrite (nth_error_nth _ _ _ E).
Qed.

(** X2.  Where a text holds "Changes", the body rendered from it is the
    text after the first "Changes" up to the next "Changes", or to the
    end if there is none, trimmed: what follows a second "Changes" is
    not rendered.  This is so in the rendering loop of the later
    revision and in the callback of the earlier one. *)
Theorem X2_body_ends_at_next_changes section i :
  indexOf (lit "Changes") section = Z.of_nat i ->
  afterChanges section
  = Ok (trim (upToNext (lit "Changes") (skipn (i + 7) section)))
  /\ forall b, content b = section ->
       Filtered.subsection b
       = Ok ([NL] ++ spaces 10 ++ lit "### "
             ++ match Filtered.matchGroup section with
                | Some g => g
                | None => lit "null"
                end
             ++ [NL; NL] ++ [NL] ++ [NL] ++ spaces 10
             ++ trim (upToNext (lit "Changes") (skipn (i + 7) section))
             ++ [NL] ++ spaces 8).
Proof.
  intros H. apply indexOf_find in H.
  change (lit "Changes") with (67%N :: lit "hanges") in *.
  pose proof (index_trim_second _ _ _ H) as E.
  change (length (67%N :: lit "hanges")) with 7 in E.
  split; [exact E|].
  intros b Hb. unfold Filtered.subsection. rewrite Hb.
  change (lit "Changes") with (67%N :: lit "hanges").
  now rewrite E.
Qed.

(** The statement at a major section that mentions "Changes" again. *)
Lemma X2_body_ends_at_next_changes_witness :
  afterChanges (lit "Major Changes" ++ [NL; NL]
                ++ lit "- Changes to the API")
  = Ok (lit "-").
Proof.
  exact (proj1 (X2_body_ends_at_next_changes
                  (lit "Major Changes" ++ [NL; NL]
                   ++ lit "- Changes to the API") 6 eq_refl)).
Defined.

Lemma renderLoop_listing entries :
  forall features bugfixes features' bugfixes',
  renderLoop entries features bugfixes = Ok (features', bugfixes') ->
  features' =
    features
    ++ map (fun p => subsection (fst p) (bodyOf (major (snd p))))
           (filter (fun p => negb (str_eqb (major (snd p)) [])) entries)
  /\ bugfixes' =
       bugfixes
       ++ map (fun p => subsection (fst p) (bodyOf (patch (snd p))))
              (filter (fun p => negb (str_eqb (patch (snd p)) [])) entries).
Proof.
  induction entries as [|[k v] entries IH];
    intros features bugfixes features' bugfixes' H.
  - injection H as <- <-. now rewrite !app_nil_r.
  - cbn [renderLoop] in H. cbn [filter fst snd].
    destruct (negb (str_eqb (major v) [])).
    + destruct (afterChanges (major v)) as [bm|] eqn:Em; [|discriminate].
      apply afterChanges_bodyOf in Em; subst bm. cbn [bind] in H.
      destruct (negb (str_eqb (patch v) [])).
      * destruct (afterChanges (patch v)) as [bp|] eqn:Ep; [|discriminate].
        apply afterChanges_bodyOf in Ep; subst bp. cbn [bind] in H.
        destruct (IH _ _ _ _ H) as [-> ->].
        cbn [map fst snd]. now rewrite <- !app_assoc.
      * cbn [bind] in H. destruct (IH _ _ _ _ H) as [-> ->].
        cbn [map fst snd]. now rewrite <- !app_assoc.
    + cbn [bind] in H. destruct (negb (str_eqb (patch v) [])).
      * destruct (afterChanges (patch v)) as [bp|] eqn:Ep; [|discriminate].
        apply afterChanges_bodyOf in Ep; subst bp. cbn [bind] in H.
        destruct (IH _ _ _ _ H) as [-> ->].
        cbn [map fst snd]. now rewrite <- !app_assoc.
      * cbn [bind] in H. destruct (IH _ _ _ _ H) as [-> ->]. tauto.
Qed.

(** X1.  For every sequence of entries the rendering succeeds; the
    "Features" bucket is, in the order of [Object.entries], one
    subsection for each title whose major section is not empty, headed
    by the title and holding the body of that section, and the
    "Bug fixes" bucket is the same for the patch sections. *)
Theorem X1_buckets_list_nonempty_sections changelogEntries :
  renderBuckets (pluginChangesOf changelogEntries)
  = Ok (map (fun p => subsection (fst p) (bodyOf (major (snd p))))
            (filter (fun p => negb (str_eqb (major (snd p)) []))
                    (Object_entries (pluginChangesOf changelogEntries))),
        map (fun p => subsection (fst p) (bodyOf (patch (snd p))))
            (filter (fun p => negb (str_eqb (patch (snd p)) []))
                    (Object_entries (pluginChangesOf changelogEntries)))).
Proof.
  destruct (renderBuckets_total changelogEntries) as (fs & bs & H).
  rewrite H. unfold renderBuckets in H.
  now destruct (renderLoop_listing _ _ _ H) as [-> ->].
Qed.

End Buckets.

(* ================================================================== *)
(** ** More on the classifier and its object *)
(* ================================================================== *)

Section MoreMapping.

Import Mapped.

Lemma find_skip_false (A : Type) (f : A -> bool) l r :
  (forall x, In x l -> f x = false) ->
  List.find f (l ++ r) = List.find f r.
Proof.
  induction l as [|x l IH]; intros H; [reflexivity|].
  simpl. rewrite (H x) by now left. apply IH.
  intros y Hy. apply H. now right.
Qed.

Lemma lastTitled_exact before e after :
  (forall e', In e' after -> titleOf e' <> titleOf e) ->
  lastTitled (titleOf e) (before ++ e :: after) = Some e.
Proof.
  intros H. unfold lastTitled.
  rewrite rev_app_distr. simpl rev. rewrite <- app_assoc.
  rewrite find_skip_false.
  - simpl. now rewrite str_eqb_refl.
  - intros x Hx. apply str_eqb_neq, H. now apply in_rev.
Qed.

(** X3.  Under a title other than [__proto__], [Object.entries] holds
    the sections of the last entry that has the title and no others:
    nothing of an earlier entry with the same title is kept or merged
    in. *)
Theorem X3_title_holds_last_entry before e after v :
  titleOf e <> lit "__proto__" ->
  (forall e', In e' after -> titleOf e' <> titleOf e) ->
  In (titleOf e, v) (Object_entries (pluginChangesOf (before ++ e :: after)))
  <-> v = sectionsOf e.
Proof.
  intros Hp Hlast.
  rewrite (title_keyed_last_wins _ v Hp), (lastTitled_exact _ _ _ Hlast).
  simpl. split; congruence.
Qed.

(** The statement at two entries with the title "Foo" after an entry of
    another package. *)
Lemma X3_title_holds_last_entry_witness :
  In (lit "Foo",
      {| major := [];
         patch := lit "Patch Changes" ++ [NL; NL] ++ lit "- beta" |})
     (Object_entries
        (pluginChangesOf
           ([Examples.entry Examples.otherPackage;
             Examples.entry Examples.alphaMajor]
            ++ Examples.entry Examples.betaPatch :: []))).
Proof.
  apply (X3_title_holds_last_entry
           [Examples.entry Examples.otherPackage;
            Examples.entry Examples.alphaMajor]
           (Examples.entry Examples.betaPatch) []).
  - discriminate.
  - intros e' [].
  - reflexivity.
Defined.

Lemma str_eqb_sym a b : str_eqb a b = str_eqb b a.
Proof.
  destruct (str_eqb a b) eqn:E, (str_eqb b a) eqn:E'; try reflexivity.
  - apply str_eqb_eq in E. apply str_eqb_neq in E'. congruence.
  - apply str_eqb_eq in E'. apply str_eqb_neq in E. congruence.
Qed.

Lemma upsert_keys_order k v l :
  map fst (upsert k v l) = addNew (map fst l) k.
Proof.
  unfold addNew. induction l as [|[k0 v0] l IH]; [reflexivity|].
  cbn [upsert map fst existsb]. rewrite (str_eqb_sym k k0).
  destruct (str_eqb k0 k); [reflexivity|].
  cbn [map fst orb]. rewrite IH.
  now destruct (existsb (str_eqb k) (map fst l)).
Qed.

(** The keys of the object, in the order of their creation, are the
    titles of the entries other than [__proto__] in the order in which
    they first occur. *)
Lemma own_keys_order es :
  map fst (own (pluginChangesOf es))
  = firstOccurrences
      (filter (fun t => negb (str_eqb t (lit "__proto__")))
              (map titleOf es)).
Proof.
  unfold firstOccurrences.
  induction es as [|e es IH] using rev_ind; [reflexivity|].
  rewrite pluginChangesOf_snoc, splitContent_assign.
  rewrite map_app, filter_app, fold_left_app, <- IH.
  cbn [map filter]. unfold assign.
  destruct (str_eqb (titleOf e) (lit "__proto__")); cbn [negb own fold_left].
  - reflexivity.
  - apply upsert_keys_order.
Qed.

Lemma firstOccurrences_incl l : forall acc x,
  In x (fold_left addNew l acc) -> In x acc \/ In x l.
Proof.
  induction l as [|y l IH]; intros acc x H; [now left|].
  simpl in H. apply IH in H as [H|H]; [|right; now right].
  unfold addNew in H. destruct (existsb (str_eqb y) acc); [now left|].
  apply in_app_iff in H as [H|[<-|[]]]; [now left|right; now left].
Qed.

Lemma filter_none (A : Type) (f : A -> bool) l :
  (forall x, In x l -> f x = false) -> filter f l = [].
Proof.
  induction l as [|x l IH]; intros H; [reflexivity|].
  simpl. rewrite (H x) by now left. apply IH. intros y Hy. apply H. now right.
Qed.

Lemma filter_all (A : Type) (f : A -> bool) l :
  (forall x, In x l -> f x = true) -> filter f l = l.
Proof.
  induction l as [|x l IH]; intros H; [reflexivity|].
  simpl. rewrite (H x) by now left. f_equal. apply IH.
  intros y Hy. apply H. now right.
Qed.

(** X4.  When no title is a canonical array index, [Object.entries]
    lists the titles in the order in which they first occur among the
    entries, [__proto__] left out: a package keeps the place of the
    first entry with its title even when a later entry overwrites its
    sections. *)
Theorem X4_entries_in_order_of_first_occurrence changelogEntries :
  (forall e, In e changelogEntries -> arrayIndex (titleOf e) = None) ->
  map fst (Object_entries (pluginChangesOf changelogEntries))
  = firstOccurrences
      (filter (fun t => negb (str_eqb t (lit "__proto__")))
              (map titleOf changelogEntries)).
Proof.
  intros H. rewrite <- own_keys_order. f_equal.
  assert (Hk : forall p, In p (own (pluginChangesOf changelogEntries)) ->
                         isIndexKey p = false).
  { intros p Hp. apply (in_map fst) in Hp.
    rewrite own_keys_order in Hp.
    apply firstOccurrences_incl in Hp as [[]|Hp].
    apply filter_In in Hp as [Hp _].
    apply in_map_iff in Hp as (e & He & Hin).
    unfold isIndexKey. rewrite <- He. now rewrite (H e Hin). }
  unfold Object_entries.
  rewrite (filter_none _ _ Hk). simpl. apply filter_all.
  intros p Hp. now rewrite (Hk p Hp).
Qed.

(** The statement at the titles Foo, Bar, Foo. *)
Lemma X4_entries_in_order_of_first_occurrence_witness :
  map fst
    (Object_entries
       (pluginChangesOf [Examples.entry Examples.alphaMajor;
                         Examples.entry Examples.otherPackage;
                         Examples.entry Examples.betaPatch]))
  = [lit "Foo"; lit "Bar"].
Proof.
  rewrite X4_entries_in_order_of_first_occurrence.
  - reflexivity.
  - intros e [<-|[<-|[<-|[]]]]; reflexivity.
Defined.

Lemma markers_apart_patch_first s i j :
  find (lit "Major Changes") s = Some i ->
  find (lit "Patch Changes") s = Some j -> j < i ->
  j + 13 <= i.
Proof.
  intros Hi Hj Hlt.
  pose proof (skipn_found _ _ Hj) as Hs.
  apply find_Some_starts in Hi.
  destruct (Nat.le_gt_cases (j + 13) i) as [|Hgt]; [assumption|exfalso].
  replace i with ((i - j) + j) in Hi by lia.
  rewrite <- skipn_skipn, Hs in Hi.
  remember (i - j) as d eqn:Hd.
  assert (Hd' : 0 < d < 13) by lia. clear -Hi Hd'.
  do 13 (destruct d as [|d]; [try lia; simpl in Hi; discriminate|]).
  lia.
Qed.

(** X5.  When the first "Patch Changes" comes before the first
    "Major Changes", the major section is empty, because the slice from
    the major marker back to the patch marker is empty, and the patch
    section runs from the patch marker to the end of the entry: it
    holds the "Major Changes" text. *)
Theorem X5_patch_marker_first content :
  (0 <= indexOf (lit "Patch Changes") content
     < indexOf (lit "Major Changes") content)%Z ->
  major (snd (splitContent_locals content)) = []
  /\ patch (snd (splitContent_locals content))
     = trim (slice content (indexOf (lit "Patch Changes") content) None)
  /\ contains (lit "Major Changes")
              (patch (snd (splitContent_locals content))).
Proof.
  intros H. rewrite locals_sections. cbn [major patch].
  unfold indexOf in H |- *.
  destruct (find (lit "Major Changes") content) as [i|] eqn:Hi; [|lia].
  destruct (find (lit "Patch Changes") content) as [j|] eqn:Hj; [|lia].
  assert (Hlt : j < i) by lia.
  split; [apply major_section_after; [exact Hi|lia]|].
  split; [reflexivity|].
  rewrite (patch_section _ Hj).
  pose proof (markers_apart_patch_first _ Hi Hj Hlt) as Hap.
  pose proof (skipn_found _ _ Hi) as Hs.
  assert (E : skipn (j + 13) content
              = firstn (i - (j + 13)) (skipn (j + 13) content)
                ++ lit "Major Changes"
                ++ skipn (i + 13) content).
  { rewrite <- (firstn_skipn (i - (j + 13)) (skipn (j + 13) content)) at 1.
    f_equal. rewrite skipn_skipn.
    replace (i - (j + 13) + (j + 13)) with i by lia. exact Hs. }
  rewrite E.
  set (a := firstn (i - (j + 13)) (skipn (j + 13) content)).
  change (a ++ lit "Major Changes" ++ skipn (i + 13) content)
    with (a ++ lit "Major Change" ++ 115%N :: skipn (i + 13) content).
  rewrite app_assoc, trimEnd_keep by reflexivity.
  exists (lit "Patch Changes" ++ a), (trimEnd (skipn (i + 13) content)).
  rewrite <- !app_assoc. reflexivity.
Qed.

(** The statement at an entry whose subsections are in that order. *)
Lemma X5_patch_marker_first_witness :
  major (snd (splitContent_locals
                (lit "## Foo" ++ [NL] ++ lit "### Patch Changes" ++ [NL]
                 ++ lit "- y" ++ [NL] ++ lit "### Major Changes" ++ [NL]
                 ++ lit "- x"))) = []
  /\ contains (lit "Major Changes")
       (patch (snd (splitContent_locals
                (lit "## Foo" ++ [NL] ++ lit "### Patch Changes" ++ [NL]
                 ++ lit "- y" ++ [NL] ++ lit "### Major Changes" ++ [NL]
                 ++ lit "- x")))).
Proof.
  assert (H : (0 <= indexOf (lit "Patch Changes")
                      (lit "## Foo" ++ [NL] ++ lit "### Patch Changes" ++ [NL]
                       ++ lit "- y" ++ [NL] ++ lit "### Major Changes"
                       ++ [NL] ++ lit "- x")
               < indexOf (lit "Major Changes")
                      (lit "## Foo" ++ [NL] ++ lit "### Patch Changes" ++ [NL]
                       ++ lit "- y" ++ [NL] ++ lit "### Major Changes"
                       ++ [NL] ++ lit "- x"))%Z)
    by (vm_compute; split; [discriminate|reflexivity]).
  destruct (X5_patch_marker_first _ H) as (Hm & _ & Hc).
  split; assumption.
Defined.

(** X6.  An entry with one of the two markers only: the section of the
    absent marker is empty and the other is the text from its marker to
    the end of the entry with the blanks at the end trimmed; no "###" is
    removed from a major section that no patch marker follows. *)
Theorem X6_single_marker content k :
  (indexOf (lit "Major Changes") content = (-1)%Z ->
   indexOf (lit "Patch Changes") content = Z.of_nat k ->
   snd (splitContent_locals content)
   = {| major := [];
        patch := lit "Patch Changes" ++ trimEnd (skipn (k + 13) content) |})
  /\ (indexOf (lit "Patch Changes") content = (-1)%Z ->
      indexOf (lit "Major Changes") content = Z.of_nat k ->
      snd (splitContent_locals content)
      = {| major := lit "Major Changes"
                    ++ trimEnd (skipn (k + 13) content);
           patch := [] |}).
Proof.
  split; intros Habs Hfound; apply indexOf_absent in Habs;
    apply indexOf_find in Hfound; rewrite locals_sections, Habs, Hfound.
  - now rewrite (patch_section _ Hfound).
  - now rewrite (major_section_alone _ Hfound).
Qed.

(** The statement at an entry with a major subsection that holds a
    "###" of its own. *)
Lemma X6_single_marker_witness :
  snd (splitContent_locals
         (lit "## Foo" ++ [NL] ++ lit "### Major Changes" ++ [NL]
          ++ lit "#### x" ++ [NL]))
  = {| major := lit "Major Changes" ++ [NL] ++ lit "#### x"; patch := [] |}.
Proof.
  exact (proj2 (X6_single_marker
                  (lit "## Foo" ++ [NL] ++ lit "### Major Changes" ++ [NL]
                   ++ lit "#### x" ++ [NL]) 11) eq_refl eq_refl).
Defined.

End MoreMapping.

(* ================================================================== *)
(** ** From package names to titles *)
(* ================================================================== *)

Section NamesToTitles.

Import Mapped.

Variables toUpperCase toLowerCase : str -> str.

Let title (pkg : package) : str :=
  splitAndCapitalize toUpperCase toLowerCase (packageName pkg).

Lemma first_line_of_app a b :
  hd [] (pieces NL (a ++ NL :: b)) = hd [] (pieces NL a).
Proof.
  rewrite pieces_app.
  destruct (pieces NL a) eqn:E; [now apply pieces_nonempty in E|reflexivity].
Qed.

Lemma content_made pkg :
  content (makeEntry toUpperCase toLowerCase pkg)
  = (lit "## " ++ title pkg) ++ NL :: (NL :: entryContent pkg).
Proof.
  unfold makeEntry, title. cbn [content]. now rewrite <- app_assoc.
Qed.

(** The title of an entry depends on the name of its package only. *)
Lemma title_depends_on_name p q :
  title p = title q ->
  titleOf (makeEntry toUpperCase toLowerCase p)
  = titleOf (makeEntry toUpperCase toLowerCase q).
Proof.
  intros H. unfold titleOf, splitContent_locals. cbn [fst].
  rewrite !split_single, !content_made, !first_line_of_app.
  now rewrite H.
Qed.

(** X7.  When the formatted name of a package holds no line feed, the
    title the classifier reads back from the entry made for the package
    is the formatted name with the blanks at both ends trimmed, whatever
    the changelog text of the entry. *)
Theorem X7_title_read_back pkg :
  oneLine (splitAndCapitalize toUpperCase toLowerCase (packageName pkg)) ->
  titleOf (makeEntry toUpperCase toLowerCase pkg)
  = trim (splitAndCapitalize toUpperCase toLowerCase (packageName pkg)).
Proof.
  intros H. fold (title pkg) in H |- *.
  unfold titleOf, splitContent_locals. cbn [fst].
  rewrite split_single, content_made, first_line_of_app.
  rewrite pieces_absent.
  - reflexivity.
  - intros Hin. apply in_app_iff in Hin as [Hin|Hin]; [|now apply H].
    simpl in Hin. unfold NL in Hin.
    repeat (destruct Hin as [Hin|Hin]; [discriminate|]). exact Hin.
Qed.

Lemma hyphenated_title pre rest :
  includes (lit "-") pre = false ->
  splitAndCapitalize toUpperCase toLowerCase (pre ++ lit "-" ++ rest)
  = join (lit " ")
         (map (capitalize toUpperCase toLowerCase) (split (lit "-") rest)).
Proof.
  intros H. apply includes_false_find in H.
  unfold splitAndCapitalize.
  change (lit "-") with [45%N] in *.
  rewrite !split_single.
  change (pre ++ [45%N] ++ rest) with (pre ++ 45%N :: rest).
  rewrite pieces_app, pieces_absent by now apply find_single_absent.
  reflexivity.
Qed.

(** X8.  Two packages whose names agree after the first hyphen get the
    same title; unless that title is [__proto__], the object made from
    the entry of the one followed by the entry of the other holds one
    property, with the sections of the second entry: the changes of the
    first package are in no bucket. *)
Theorem X8_names_that_collide p q pre1 pre2 rest :
  packageName p = pre1 ++ lit "-" ++ rest ->
  packageName q = pre2 ++ lit "-" ++ rest ->
  includes (lit "-") pre1 = false ->
  includes (lit "-") pre2 = false ->
  titleOf (makeEntry toUpperCase toLowerCase p)
  = titleOf (makeEntry toUpperCase toLowerCase q)
  /\ (titleOf (makeEntry toUpperCase toLowerCase q) <> lit "__proto__" ->
      Object_entries
        (pluginChangesOf [makeEntry toUpperCase toLowerCase p;
                          makeEntry toUpperCase toLowerCase q])
      = [(titleOf (makeEntry toUpperCase toLowerCase q),
          sectionsOf (makeEntry toUpperCase toLowerCase q))]).
Proof.
  intros Hp Hq H1 H2.
  assert (E : titleOf (makeEntry toUpperCase toLowerCase p)
              = titleOf (makeEntry toUpperCase toLowerCase q)).
  { apply title_depends_on_name. unfold title.
    now rewrite Hp, Hq, !hyphenated_title. }
  split; [exact E|]. intros Hproto.
  unfold pluginChangesOf. cbn [fold_left].
  rewrite !splitContent_assign, E. unfold assign.
  apply str_eqb_neq in Hproto. rewrite Hproto.
  unfold emptyObject. cbn [own upsert]. rewrite str_eqb_refl.
  unfold Object_entries. cbn [own filter].
  now destruct (isIndexKey _).
Qed.

End NamesToTitles.

(** The statement at the package [core-utils]. *)
Lemma X7_title_read_back_witness :
  titleOf (makeEntry asciiUpper asciiLower
             {| packageName := lit "core-utils";
                packagePrivate := false;
                entryHighestLevel := 1;
                entryContent := lit "### Patch Changes" |})
  = lit "Utils".
Proof.
  rewrite X7_title_read_back.
  - reflexivity.
  - vm_compute. intros H.
    repeat (destruct H as [H|H]; [discriminate|]). exact H.
Defined.

(** The statement at the packages [backstage-plugin-foo] and
    [acme-plugin-foo]. *)
Lemma X8_names_that_collide_witness :
  Mapped.Object_entries
    (Mapped.pluginChangesOf
       [makeEntry asciiUpper asciiLower
          {| packageName := lit "backstage-plugin-foo";
             packagePrivate := false;
             entryHighestLevel := 3;
             entryContent := lit "### Major Changes" ++ [NL] ++ lit "- a" |};
        makeEntry asciiUpper asciiLower
          {| packageName := lit "acme-plugin-foo";
             packagePrivate := false;
             entryHighestLevel := 1;
             entryContent := lit "### Patch Changes" ++ [NL] ++ lit "- b" |}])
  = [(lit "Plugin Foo",
      {| Mapped.major := [];
         Mapped.patch := lit "Patch Changes" ++ [NL] ++ lit "- b" |})].
Proof.
  refine (proj2 (X8_names_that_collide asciiUpper asciiLower
                   {| packageName := lit "backstage-plugin-foo";
                      packagePrivate := false;
                      entryHighestLevel := 3;
                      entryContent :=
                        lit "### Major Changes" ++ [NL] ++ lit "- a" |}
                   {| packageName := lit "acme-plugin-foo";
                      packagePrivate := false;
                      entryHighestLevel := 1;
                      entryContent :=
                        lit "### Patch Changes" ++ [NL] ++ lit "- b" |}
                   (lit "backstage") (lit "acme") (lit "plugin-foo")
                   eq_refl eq_refl eq_refl eq_refl) _).
  discriminate.
Defined.

(* ================================================================== *)
(** ** More on the alignment *)
(* ================================================================== *)

Section MoreAlignment.

Lemma dropWhile_idempotent f s : dropWhile f (dropWhile f s) = dropWhile f s.
Proof.
  induction s as [|c s IH]; [reflexivity|].
  simpl. destruct (f c) eqn:E; [exact IH|].
  simpl. now rewrite E.
Qed.

(** X9.  The aligned text has as many lines as the text, none of its
    lines opens with a blank, and aligning it again changes nothing. *)
Theorem X9_align_once_is_enough markdown :
  length (split [NL] (align markdown)) = length (split [NL] markdown)
  /\ Forall (fun line => trimStart line = line)
            (split [NL] (align markdown))
  /\ align (align markdown) = align markdown.
Proof.
  pose proof (lines_align markdown) as H.
  split; [|split].
  - now rewrite H, length_map.
  - rewrite H. apply Forall_map, Forall_forall.
    intros l _. apply dropWhile_idempotent.
  - unfold align at 1. rewrite H, map_map. unfold align.
    f_equal. apply map_ext. intros l. apply dropWhile_idempotent.
Qed.

End MoreAlignment.

(* ================================================================== *)
(** ** Scripts *)
(* ================================================================== *)

Section Scripts.

Lemma splitBlanks_nonempty b s : splitBlanks b s <> [].
Proof.
  revert b; induction s as [|c s IH]; intros b; simpl; [discriminate|].
  destruct (isWhiteSpace c); [destruct b; [apply IH|discriminate]|].
  destruct (splitBlanks false s); discriminate.
Qed.

Lemma splitBlanks_word w t :
  blankFree w ->
  splitBlanks false (w ++ t)
  = (w ++ hd [] (splitBlanks false t)) :: tl (splitBlanks false t).
Proof.
  unfold blankFree. induction w as [|c w IH]; intros H.
  - simpl. pose proof (splitBlanks_nonempty false t).
    now destruct (splitBlanks false t).
  - simpl in H. apply andb_true_iff in H as [Hc Hw].
    apply negb_true_iff in Hc.
    cbn [app splitBlanks]. rewrite Hc, (IH Hw). reflexivity.
Qed.

Lemma splitBlanks_after_blank c s :
  isWhiteSpace c = false -> splitBlanks true (c :: s) = splitBlanks false (c :: s).
Proof. intros H. simpl. now rewrite H. Qed.

Lemma splitBlanks_words words :
  words <> [] ->
  Forall (fun w => w <> [] /\ blankFree w) words ->
  splitBlanks false (join (lit " ") words) = words.
Proof.
  intros Hne Hall. induction words as [|w words IH]; [congruence|].
  inversion Hall as [|? ? [Hw Hfree] Hrest]; subst.
  destruct words as [|w2 words].
  - simpl join. rewrite <- (app_nil_r w) at 1.
    rewrite splitBlanks_word by exact Hfree. simpl. now rewrite app_nil_r.
  - rewrite join_cons by discriminate.
    rewrite splitBlanks_word by exact Hfree.
    change (lit " " ++ join (lit " ") (w2 :: words))
      with (32%N :: join (lit " ") (w2 :: words)).
    cbn [splitBlanks isWhiteSpace]. 
    change (isWhiteSpace 32) with true. cbn [hd tl].
    rewrite app_nil_r. f_equal.
    inversion Hrest as [|? ? [Hw2 Hfree2] _]; subst.
    destruct w2 as [|c2 w2]; [congruence|].
    assert (Hc2 : isWhiteSpace c2 = false).
    { unfold blankFree in Hfree2. simpl in Hfree2.
      apply andb_true_iff in Hfree2 as [Hc _]. now apply negb_true_iff. }
    assert (Hj : exists r, join (lit " ") ((c2 :: w2) :: words) = c2 :: r).
    { destruct words; simpl; eexists; reflexivity. }
    destruct Hj as [r Hj]. rewrite Hj, (splitBlanks_after_blank c2 r Hc2), <- Hj.
    apply IH; [discriminate|exact Hrest].
Qed.

(** X10.  A script made of a command and arguments, none of them empty
    and none holding a blank, separated by single spaces, is run as that
    command with those arguments. *)
Theorem X10_script_words cmd arguments :
  Forall (fun w => w <> [] /\ blankFree w) (cmd :: arguments) ->
  scriptCall (join (lit " ") (cmd :: arguments))
  = {| command := cmd; args := arguments |}.
Proof.
  intros H. unfold scriptCall.
  now rewrite splitBlanks_words by (discriminate || exact H).
Qed.

(** The statement at the script "yarn changeset publish". *)
Lemma X10_script_words_witness :
  scriptCall (lit "yarn changeset publish")
  = {| command := lit "yarn"; args := [lit "changeset"; lit "publish"] |}.
Proof.
  apply (@X10_script_words (lit "yarn") [lit "changeset"; lit "publish"]).
  repeat constructor; discriminate.
Defined.

Lemma splitBlanks_trailing s c :
  isWhiteSpace c = true ->
  forall b, exists words,
    splitBlanks b (s ++ [c]) = words ++ [[]]
    /\ (b = false -> words <> []).
Proof.
  intros Hc. induction s as [|x s IH]; intros b.
  - simpl. rewrite Hc. destruct b.
    + exists []. split; [reflexivity|discriminate].
    + exists [[]]. split; [reflexivity|discriminate].
  - cbn [app splitBlanks]. destruct (isWhiteSpace x).
    + destruct (IH true) as (ws & E & _). destruct b.
      * exists ws. split; [exact E|discriminate].
      * exists ([] :: ws). rewrite E. split; [reflexivity|discriminate].
    + destruct (IH false) as (ws & E & Hne). rewrite E.
      destruct ws as [|h t]; [now contradiction Hne|].
      exists ((x :: h) :: t). split; [reflexivity|discriminate].
Qed.

(** X11.  A script that opens with a blank is run as the empty command,
    in [runPublish] and in [runVersion], and a script that ends with a
    blank passes an empty string as its last word; no word ever holds a
    blank. *)
Theorem X11_script_blanks_at_the_ends c :
  isWhiteSpace c = true ->
  (forall s, command (scriptCall (c :: s)) = [])
  /\ (forall s d,
        last (command (scriptCall (s ++ [c]))
                :: args (scriptCall (s ++ [c]))) d = [])
  /\ (forall s, Forall blankFree (command (scriptCall s)
                                    :: args (scriptCall s)))
  /\ (forall s cliPath olderThan2,
        command (versionCall (Str (c :: s)) cliPath olderThan2) = []).
Proof.
  intros Hc. split; [|split; [|split]];
    [| | |intros s cliPath olderThan2; unfold versionCall, scriptCall;
          cbn [truthy toString splitBlanks]; now rewrite Hc].
  - intros s. unfold scriptCall. cbn [splitBlanks]. now rewrite Hc.
  - intros s d. unfold scriptCall. cbn [command args].
    destruct (splitBlanks_trailing s c Hc false) as (ws & E & _).
    rewrite E. destruct ws as [|h t]; [reflexivity|].
    cbn [hd tl app]. change (h :: t ++ [[]]) with ((h :: t) ++ [[]]:list str).
    now rewrite last_last.
  - intros s. unfold scriptCall. cbn [command args].
    assert (H : forall b, Forall blankFree (splitBlanks b s)).
    { induction s as [|x s IH]; intros b.
      - repeat constructor.
      - cbn [splitBlanks]. destruct (isWhiteSpace x) eqn:Ex.
        + destruct b; [apply IH|constructor; [reflexivity|apply IH]].
        + specialize (IH false).
          destruct (splitBlanks false s) as [|h t].
          * repeat constructor. unfold blankFree. simpl. now rewrite Ex.
          * inversion IH; subst. constructor; [|assumption].
            unfold blankFree in *. simpl. now rewrite Ex. }
    specialize (H false).
    pose proof (splitBlanks_nonempty false s).
    now destruct (splitBlanks false s).
Qed.

(** The statement at the script " yarn release ". *)
Lemma X11_script_blanks_at_the_ends_witness :
  scriptCall (lit " yarn release ")
  = {| command := []; args := [lit "yarn"; lit "release"; []] |}
  /\ command (scriptCall (32%N :: lit "yarn release ")) = [].
Proof.
  split; [reflexivity|].
  exact (proj1 (X11_script_blanks_at_the_ends 32 eq_refl)
               (lit "yarn release ")).
Defined.

End Scripts.

(* ================================================================== *)
(** ** The matcher *)
(* ================================================================== *)

Unset Implicit Arguments.

Section MatcherFacts.

Import Regex.

Variable R : Type.
Implicit Types (k : str -> captures -> option R) (s t : str).

Lemma tryLengths_top (h : str -> option R) s least n r :
  h (skipn n s) = Some r -> tryLengths h s least n = Some r.
Proof. intros H. destruct n; simpl in *; now rewrite H. Qed.

Lemma tryLengths_skip (h : str -> option R) s least m n :
  least <= m -> m <= n ->
  (forall j, m < j -> j <= n -> h (skipn j s) = None) ->
  tryLengths h s least n = tryLengths h s least m.
Proof.
  intros Hl Hmn. induction n as [|n IH]; intros H.
  - now replace m with 0 by lia.
  - destruct (Nat.eq_dec m (S n)) as [->|Hne]; [reflexivity|].
    cbn [tryLengths]. rewrite (H (S n)) by lia.
    replace (n <? least) with false by (symmetry; apply Nat.ltb_ge; lia).
    apply IH; [lia|]. intros j Hj Hjn. apply H; lia.
Qed.

Lemma tryLengths_none (h : str -> option R) s least n :
  (forall j, j <= n -> h (skipn j s) = None) ->
  tryLengths h s least n = None.
Proof.
  induction n as [|n IH]; intros H.
  - specialize (H 0 (le_n 0)). simpl in *. now rewrite H.
  - cbn [tryLengths].
    rewrite (H (S n)) by lia. destruct (n <? least); [reflexivity|].
    apply IH. intros j Hj. apply H. lia.
Qed.

Lemma matchAt_Lit_app p t caps k :
  matchAt (Lit p) (p ++ t) caps k = k t caps.
Proof.
  cbn [matchAt]. rewrite startsWith_app.
  now rewrite skipn_app, skipn_all, Nat.sub_diag.
Qed.

Lemma matchAt_Lit_fail p r s caps k :
  startsWith p s = false -> matchAt (Seq (Lit p) r) s caps k = None.
Proof. intros H. cbn [matchAt]. now rewrite H. Qed.

Lemma takeWhile_all (f : N -> bool) a :
  forallb f a = true -> takeWhile f a = a.
Proof.
  induction a as [|x a IH]; [reflexivity|]. simpl.
  intros H. apply andb_true_iff in H as [Hx Ha]. now rewrite Hx, IH.
Qed.

Lemma takeWhile_stop (f : N -> bool) a c t :
  forallb f a = true -> f c = false -> takeWhile f (a ++ c :: t) = a.
Proof.
  induction a as [|x a IH]; simpl; intros Ha Hc.
  - now rewrite Hc.
  - apply andb_true_iff in Ha as [Hx Ha]. now rewrite Hx, IH.
Qed.

Lemma firstn_takeWhile (f : N -> bool) s :
  firstn (length (takeWhile f s)) s = takeWhile f s.
Proof.
  induction s as [|x s IH]; [reflexivity|]. simpl.
  destruct (f x); [simpl; now rewrite IH|reflexivity].
Qed.

Lemma takeWhile_length (f : N -> bool) s :
  length (takeWhile f s) <= length s.
Proof.
  induction s as [|x s IH]; [simpl; lia|]. simpl.
  destruct (f x); simpl; lia.
Qed.

(** A repetition that can take a whole run and go on takes it. *)
Lemma matchAt_Rep_run f least run c t caps k r :
  forallb f run = true -> f c = false -> least <= length run ->
  k (c :: t) caps = Some r ->
  matchAt (Rep f least) (run ++ c :: t) caps k = Some r.
Proof.
  intros Hrun Hc Hl Hk. cbn [matchAt].
  rewrite (takeWhile_stop f run c t Hrun Hc).
  replace (length run <? least) with false
    by (symmetry; apply Nat.ltb_ge; lia).
  apply tryLengths_top.
  now rewrite skipn_app, skipn_all, Nat.sub_diag.
Qed.

Lemma forallb_skipn (f : N -> bool) j s :
  forallb f s = true -> forallb f (skipn j s) = true.
Proof.
  revert s; induction j as [|j IH]; intros [|x s] H; simpl; try assumption.
  simpl in H. apply andb_true_iff in H as [_ H]. now apply IH.
Qed.

Lemma no_start_without c j s :
  forallb (fun x => negb (x =? c)%N) s = true ->
  startsWith [c] (skipn j s) = false.
Proof.
  intros H. apply (forallb_skipn _ j) in H.
  destruct (skipn j s) as [|x t]; [reflexivity|].
  simpl in H. apply andb_true_iff in H as [Hx _].
  simpl. rewrite N.eqb_sym. apply negb_true_iff in Hx. now rewrite Hx.
Qed.

End MatcherFacts.

Section MatcherSearch.

Import Regex.

Lemma exec_cons r a s :
  exec r (a :: s) =
  match matchAt r (a :: s) [] (fun _ caps => Some caps) with
  | Some caps => Some caps
  | None => exec r s
  end.
Proof. reflexivity. Qed.

(** The search stops at the first offset with a match. *)
Lemma exec_at r s i caps :
  i <= length s ->
  (forall j, j < i ->
     matchAt r (skipn j s) [] (fun _ c => Some c) = None) ->
  matchAt r (skipn i s) [] (fun _ c => Some c) = Some caps ->
  exec r s = Some caps.
Proof.
  revert i; induction s as [|a s IH]; intros i Hi Hbefore Hat.
  - rewrite skipn_nil in Hat. simpl. now rewrite Hat.
  - rewrite exec_cons. destruct i as [|i].
    + simpl in Hat. now rewrite Hat.
    + pose proof (Hbefore 0 ltac:(lia)) as H0. simpl in H0. rewrite H0.
      apply (IH i).
      * simpl in Hi. lia.
      * intros j Hj. apply (Hbefore (S j)). lia.
      * exact Hat.
Qed.

Lemma exec_nowhere r s :
  (forall j, matchAt r (skipn j s) [] (fun _ c => Some c) = None) ->
  exec r s = None.
Proof.
  induction s as [|a s IH]; intros H.
  - specialize (H 0). simpl in *. now rewrite H.
  - pose proof (H 0) as H0. simpl in H0. rewrite exec_cons, H0.
    apply IH. intros j. apply (H (S j)).
Qed.

(** An expression that opens with a literal matches only where the
    literal occurs. *)
Lemma exec_without_literal p r s :
  find p s = None -> exec (Seq (Lit p) r) s = None.
Proof.
  intros H. apply exec_nowhere. intros j.
  apply matchAt_Lit_fail. now apply find_None_all.
Qed.

Lemma exec_Lit p s : exec (Lit p) s = option_map (fun _ => []) (find p s).
Proof.
  induction s as [|a s IH].
  - simpl. now destruct (startsWith p []).
  - rewrite exec_cons, find_cons. cbn [matchAt].
    destruct (startsWith p (a :: s)); [reflexivity|].
    rewrite IH. now destruct (find p s).
Qed.

End MatcherSearch.

(* ================================================================== *)
(** ** The lines that announce a tag *)
(* ================================================================== *)

Section Tags.

Import Regex Publish.

Let NONSLASH := fun c : N => negb (c =? 47)%N.
Let NONAT := fun c : N => negb (c =? 64)%N.
Let NONBLANK := fun c : N => negb (isWhiteSpace c).
Let fin : str -> captures -> option captures := fun _ caps => Some caps.
Let versionR := Seq (Lit (lit "@")) (Group 2 (Rep NONBLANK 1)).
Let scopedR :=
  Seq (Lit (lit "@"))
      (Seq (Rep NONSLASH 1) (Seq (Lit (lit "/")) (Rep NONAT 1))).
Let nameR := Group 1 (Alt scopedR (Rep NONSLASH 1)).

Lemma newTagRegex_parts :
  newTagRegex
  = Seq (Lit (lit "New tag:")) (Seq (Rep isWhiteSpace 1) (Seq nameR versionR)).
Proof. reflexivity. Qed.

Lemma matchAt_Seq (R : Type) a b s caps (k : str -> captures -> option R) :
  matchAt a s caps (fun s' caps' => matchAt b s' caps' k)
  = matchAt (Seq a b) s caps k.
Proof. reflexivity. Qed.

Lemma version_match c ver caps :
  isWhiteSpace c = false ->
  matchAt versionR (lit "@" ++ c :: ver) caps fin
  = Some ((2, takeWhile NONBLANK (c :: ver)) :: caps).
Proof.
  intros Hc. unfold versionR.
  rewrite <- matchAt_Seq, matchAt_Lit_app. cbn [matchAt].
  assert (Hn : 1 <= length (takeWhile NONBLANK (c :: ver))).
  { simpl. unfold NONBLANK at 1. rewrite Hc. simpl. lia. }
  replace (length (takeWhile NONBLANK (c :: ver)) <? 1) with false
    by (symmetry; apply Nat.ltb_ge; exact Hn).
  apply tryLengths_top. unfold fin. do 3 f_equal.
  rewrite length_skipn.
  pose proof (takeWhile_length NONBLANK (c :: ver)) as Hle.
  replace (length (c :: ver)
           - (length (c :: ver) - length (takeWhile NONBLANK (c :: ver))))
    with (length (takeWhile NONBLANK (c :: ver))) by lia.
  apply firstn_takeWhile.
Qed.

Lemma version_fail s caps :
  startsWith (lit "@") s = false -> matchAt versionR s caps fin = None.
Proof. intros H. now apply matchAt_Lit_fail. Qed.

Lemma scoped_fail (R : Type) s caps (k : str -> captures -> option R) :
  forallb NONSLASH s = true -> matchAt scopedR s caps k = None.
Proof.
  intros H. unfold scopedR. cbn [matchAt].
  destruct (startsWith (lit "@") s); [|reflexivity].
  destruct (_ <? 1); [reflexivity|].
  apply tryLengths_none. intros j _.
  change (lit "/") with [47%N].
  now rewrite no_start_without by now apply forallb_skipn.
Qed.

(** A name without a slash, up to the last "@" that a version follows. *)
Lemma name_unscoped name c ver caps :
  name <> [] ->
  forallb NONSLASH (name ++ lit "@" ++ c :: ver) = true ->
  forallb NONAT (c :: ver) = true ->
  isWhiteSpace c = false ->
  matchAt (Seq nameR versionR) (name ++ lit "@" ++ c :: ver) caps fin
  = Some ((2, takeWhile NONBLANK (c :: ver)) :: (1, name) :: caps).
Proof.
  intros Hname Hslash Hat Hc.
  set (s1 := name ++ lit "@" ++ c :: ver) in *.
  unfold nameR. cbn [matchAt].
  rewrite scoped_fail by exact Hslash.
  rewrite (takeWhile_all _ _ Hslash).
  assert (Hlen : length s1 = length name + S (S (length ver))).
  { unfold s1. rewrite length_app. simpl. lia. }
  assert (Hpos : 1 <= length name) by (destruct name; [congruence|simpl; lia]).
  replace (length s1 <? 1) with false by (symmetry; apply Nat.ltb_ge; lia).
  rewrite (tryLengths_skip _ _ _ 1 (length name) (length s1)); [|lia|lia|].
  - apply tryLengths_top.
    assert (E : skipn (length name) s1 = lit "@" ++ c :: ver).
    { unfold s1. now rewrite skipn_app, skipn_all, Nat.sub_diag. }
    rewrite E, version_match by exact Hc. do 4 f_equal.
    replace (length s1 - length (lit "@" ++ c :: ver)) with (length name)
      by (rewrite Hlen; simpl; lia).
    unfold s1. now rewrite firstn_app, firstn_all, Nat.sub_diag, firstn_0,
      app_nil_r.
  - intros j Hj Hjn. apply version_fail.
    assert (E : skipn j s1 = skipn (j - S (length name)) (c :: ver)).
    { unfold s1. rewrite app_assoc, skipn_app.
      rewrite skipn_all2 by (rewrite length_app; simpl; lia).
      rewrite length_app. simpl. f_equal. lia. }
    rewrite E. change (lit "@") with [64%N].
    now apply no_start_without.
Qed.

(** A scoped name: "@", the scope up to the first slash, and the name
    up to the next "@". *)
Lemma name_scoped scope nm c ver caps :
  scope <> [] -> forallb NONSLASH scope = true ->
  nm <> [] -> forallb NONAT nm = true ->
  isWhiteSpace c = false ->
  matchAt (Seq nameR versionR)
          (lit "@" ++ scope ++ lit "/" ++ nm ++ lit "@" ++ c :: ver) caps fin
  = Some ((2, takeWhile NONBLANK (c :: ver))
          :: (1, lit "@" ++ scope ++ lit "/" ++ nm) :: caps).
Proof.
  intros Hscope Hslash Hnm Hat Hc.
  set (s1 := lit "@" ++ scope ++ lit "/" ++ nm ++ lit "@" ++ c :: ver).
  assert (Hs : matchAt scopedR s1 caps
                 (fun s' caps' =>
                    matchAt versionR s'
                      ((1, firstn (length s1 - length s') s1) :: caps') fin)
               = Some ((2, takeWhile NONBLANK (c :: ver))
                       :: (1, lit "@" ++ scope ++ lit "/" ++ nm) :: caps)).
  { unfold scopedR. rewrite <- matchAt_Seq.
    unfold s1 at 1. rewrite matchAt_Lit_app. rewrite <- matchAt_Seq.
    change (scope ++ lit "/" ++ nm ++ lit "@" ++ c :: ver)
      with (scope ++ 47%N :: (nm ++ lit "@" ++ c :: ver)).
    apply matchAt_Rep_run;
      [exact Hslash|reflexivity
      |destruct scope; [congruence|simpl; lia]|].
    rewrite <- matchAt_Seq.
    change (47%N :: nm ++ lit "@" ++ c :: ver)
      with (lit "/" ++ nm ++ 64%N :: c :: ver).
    rewrite matchAt_Lit_app.
    apply matchAt_Rep_run;
      [exact Hat|reflexivity|destruct nm; [congruence|simpl; lia]|].
    change (64%N :: c :: ver) with (lit "@" ++ c :: ver).
    rewrite version_match by exact Hc. do 4 f_equal.
    assert (E : s1 = (lit "@" ++ scope ++ lit "/" ++ nm)
                     ++ lit "@" ++ c :: ver).
    { unfold s1. now rewrite <- !app_assoc. }
    rewrite E at 2. rewrite E at 1.
    rewrite length_app, Nat.add_sub.
    now rewrite firstn_app, firstn_all, Nat.sub_diag, firstn_0, app_nil_r. }
  unfold nameR. cbn [matchAt]. fold s1. now rewrite Hs.
Qed.

(** The search in a line: the first "New tag:", all the blanks after
    it, then the name and the version. *)
Lemma newTag_exec line i blanks c0 t0 caps :
  find (lit "New tag:") line = Some i ->
  skipn (i + 8) line = blanks ++ c0 :: t0 ->
  blanks <> [] -> forallb isWhiteSpace blanks = true ->
  isWhiteSpace c0 = false ->
  matchAt (Seq nameR versionR) (c0 :: t0) [] fin = Some caps ->
  exec newTagRegex line = Some caps.
Proof.
  intros Hfind Hrest Hne Hblank Hc0 Hm.
  apply (exec_at _ _ i).
  - eapply find_Some_bound'; eauto.
  - intros j Hj. rewrite newTagRegex_parts. apply matchAt_Lit_fail.
    eapply find_Some_first; eauto.
  - rewrite (skipn_found _ _ Hfind).
    change (length (lit "New tag:")) with 8. rewrite Hrest.
    rewrite newTagRegex_parts, <- matchAt_Seq, matchAt_Lit_app.
    rewrite <- matchAt_Seq.
    apply matchAt_Rep_run;
      [exact Hblank|exact Hc0|destruct blanks; [congruence|simpl; lia]|].
    exact Hm.
Qed.

(** X12.  A line whose first "New tag:" is followed by blanks, a name
    that does not open with a blank, "@" and a version that does not
    open with a blank, with no slash in the name or the version and no
    "@" in the version, announces that name. *)
Theorem X12_unscoped_tag line i blanks n0 pkgName c ver :
  indexOf (lit "New tag:") line = Z.of_nat i ->
  skipn (i + 8) line = blanks ++ (n0 :: pkgName) ++ lit "@" ++ c :: ver ->
  blanks <> [] -> forallb isWhiteSpace blanks = true ->
  isWhiteSpace n0 = false ->
  forallb (fun x => negb (x =? 47)%N)
          ((n0 :: pkgName) ++ lit "@" ++ c :: ver) = true ->
  forallb (fun x => negb (x =? 64)%N) (c :: ver) = true ->
  isWhiteSpace c = false ->
  tagOf line = Some (n0 :: pkgName).
Proof.
  intros Hi Hrest Hne Hblank Hn0 Hslash Hat Hc.
  apply indexOf_find in Hi. unfold tagOf.
  rewrite (newTag_exec line i blanks n0
             (pkgName ++ lit "@" ++ c :: ver)
             [(2, takeWhile NONBLANK (c :: ver)); (1, n0 :: pkgName)]);
    try assumption; [reflexivity|].
  change (n0 :: pkgName ++ lit "@" ++ c :: ver)
    with ((n0 :: pkgName) ++ lit "@" ++ c :: ver).
  now apply name_unscoped.
Qed.

(** X13.  A line whose first "New tag:" is followed by blanks, "@", a
    scope without a slash, a slash, a name without "@", "@" and a
    version that does not open with a blank announces the scoped name;
    scope and name are not empty. *)
Theorem X13_scoped_tag line i blanks scope nm c ver :
  indexOf (lit "New tag:") line = Z.of_nat i ->
  skipn (i + 8) line
  = blanks ++ lit "@" ++ scope ++ lit "/" ++ nm ++ lit "@" ++ c :: ver ->
  blanks <> [] -> forallb isWhiteSpace blanks = true ->
  scope <> [] -> forallb (fun x => negb (x =? 47)%N) scope = true ->
  nm <> [] -> forallb (fun x => negb (x =? 64)%N) nm = true ->
  isWhiteSpace c = false ->
  tagOf line = Some (lit "@" ++ scope ++ lit "/" ++ nm).
Proof.
  intros Hi Hrest Hne Hblank Hscope Hslash Hnm Hat Hc.
  apply indexOf_find in Hi. unfold tagOf.
  rewrite (newTag_exec line i blanks 64%N
             (scope ++ lit "/" ++ nm ++ lit "@" ++ c :: ver)
             [(2, takeWhile NONBLANK (c :: ver));
              (1, lit "@" ++ scope ++ lit "/" ++ nm)]);
    try assumption; [reflexivity|reflexivity|].
  change (64%N :: scope ++ lit "/" ++ nm ++ lit "@" ++ c :: ver)
    with (lit "@" ++ scope ++ lit "/" ++ nm ++ lit "@" ++ c :: ver).
  now apply name_scoped.
Qed.

End Tags.

(** The statement at a line of the publish command. *)
Lemma X12_unscoped_tag_witness :
  tagOf (lit "info New tag:  core@1.2.3") = Some (lit "core").
Proof.
  apply (X12_unscoped_tag (lit "info New tag:  core@1.2.3") 5
           (lit "  ") 99%N (lit "ore") 49%N (lit ".2.3"));
    (reflexivity || discriminate).
Defined.

Lemma X13_scoped_tag_witness :
  tagOf (lit "New tag: @acme/core@1.2.3-rc.0 done")
  = Some (lit "@acme/core").
Proof.
  apply (X13_scoped_tag (lit "New tag: @acme/core@1.2.3-rc.0 done") 0
           (lit " ") (lit "acme") (lit "core") 49%N (lit ".2.3-rc.0 done"));
    (reflexivity || discriminate).
Defined.

(* ================================================================== *)
(** ** [runPublish] *)
(* ================================================================== *)

Section Publishing.

Import Regex Publish.

Lemma pieces_hd_prefix c s :
  exists b, s = hd [] (pieces c s) ++ b.
Proof.
  induction s as [|x s [b IH]]; [now exists []|].
  simpl. destruct (x =? c)%N.
  - now exists (x :: s).
  - pose proof (pieces_nonempty c s) as Hne.
    destruct (pieces c s) as [|h t]; [congruence|].
    exists b. simpl in *. now rewrite IH at 1.
Qed.

(** Every line is a part of the text. *)
Lemma pieces_sub c s l :
  In l (pieces c s) -> exists a b, s = a ++ l ++ b.
Proof.
  induction s as [|x s IH]; simpl.
  - intros [<-|[]]. now exists [], [].
  - destruct (x =? c)%N.
    + intros [<-|H].
      * now exists [], (x :: s).
      * destruct (IH H) as (a & b & E). exists (x :: a), b.
        simpl. now rewrite E at 1.
    + pose proof (pieces_hd_prefix c s) as [b Hb].
      pose proof (pieces_nonempty c s) as Hne.
      destruct (pieces c s) as [|h t]; [congruence|].
      intros [<-|H].
      * exists [], b. simpl in *. now rewrite Hb at 1.
      * destruct (IH (or_intror H)) as (a & b' & E).
        exists (x :: a), b'. simpl. now rewrite E at 1.
Qed.

Lemma line_without p s l :
  find p s = None -> In l (split [NL] s) -> find p l = None.
Proof.
  intros Hs Hl. rewrite split_single in Hl.
  destruct (pieces_sub _ _ _ Hl) as (a & b & E).
  destruct (find p l) eqn:F; [|reflexivity].
  exfalso.
  apply (find_app_found p (a ++ firstn n l) (skipn (n + length p) l ++ b)).
  rewrite <- Hs. f_equal. rewrite E, <- app_assoc. f_equal.
  rewrite !app_assoc. f_equal. rewrite <- app_assoc.
  symmetry. now apply find_Some_decomp.
Qed.

Lemma pieces_lead c a t :
  ~ In c a ->
  pieces c (a ++ t) = (a ++ hd [] (pieces c t)) :: tl (pieces c t).
Proof.
  induction a as [|x a IH]; intros H.
  - simpl. pose proof (pieces_nonempty c t).
    now destruct (pieces c t).
  - cbn [app pieces].
    replace (x =? c)%N with false
      by (symmetry; apply N.eqb_neq; intros ->; apply H; now left).
    rewrite IH by (intros Hin; apply H; now right). reflexivity.
Qed.

(** An occurrence of a text without line feed lies in one line. *)
Lemma line_with p s :
  p <> [] -> ~ In NL p -> find p s <> None ->
  exists l, In l (split [NL] s) /\ find p l <> None.
Proof.
  intros Hp Hnl. rewrite split_single.
  induction s as [|x s IH]; intros H.
  - simpl in H. destruct p; [congruence|]. now simpl in H.
  - destruct (startsWith p (x :: s)) eqn:E.
    + apply startsWith_inv in E. rewrite E.
      rewrite pieces_lead by exact Hnl.
      eexists. split; [now left|].
      apply (find_app_found p []).
    + rewrite find_cons, E in H.
      assert (H' : find p s <> None) by (destruct (find p s); [discriminate|now simpl in H]).
      destruct (IH H') as (l & Hl & Hf). simpl.
      destruct (x =? NL)%N.
      * exists l. split; [now right|exact Hf].
      * destruct (pieces NL s) as [|h t]; [contradiction|].
        destruct Hl as [<-|Hl].
        -- exists (x :: h). split; [now left|].
           rewrite find_cons. destruct (startsWith p (x :: h)); [discriminate|].
           destruct (find p h); [discriminate|congruence].
        -- exists l. split; [now right|exact Hf].
Qed.

Lemma tagOf_without_literal line :
  find (lit "New tag:") line = None -> tagOf line = None.
Proof.
  intros H. unfold tagOf, newTagRegex.
  now rewrite (exec_without_literal (lit "New tag:") _ line H).
Qed.

Lemma releasedByTags_step packages line rest released :
  releasedByTags packages (line :: rest) released =
  match tagOf line with
  | None => releasedByTags packages rest released
  | Some pkgName =>
      match packagesByName_get packages pkgName with
      | None => Rejected (newError (notFoundMessage pkgName))
      | Some pkg => releasedByTags packages rest (released ++ [pkg])
      end
  end.
Proof.
  cbn [releasedByTags]. unfold tagOf.
  now destruct (exec newTagRegex line).
Qed.

Lemma rootTagged_lines lines :
  rootTagged lines = existsb (includes (lit "New tag:")) lines.
Proof.
  induction lines as [|l lines IH]; [reflexivity|].
  cbn [rootTagged existsb]. unfold rootTagRegex. rewrite exec_Lit.
  unfold includes at 1, indexOf.
  destruct (find (lit "New tag:") l) as [n|]; cbn [option_map].
  - now rewrite of_nat_not_sentinel.
  - exact IH.
Qed.

(** In a repository that is one package a tag anywhere in the output
    counts. *)
Lemma rootTagged_output stdout :
  rootTagged (split [NL] stdout) = includes (lit "New tag:") stdout.
Proof.
  rewrite rootTagged_lines.
  destruct (includes (lit "New tag:") stdout) eqn:E.
  - apply existsb_exists.
    destruct (line_with (lit "New tag:") stdout) as (l & Hl & Hf).
    + discriminate.
    + unfold NL. simpl. intuition discriminate.
    + apply find_contains. now apply includes_contains.
    + exists l. split; [exact Hl|].
      apply includes_contains. now apply find_contains.
  - apply includes_false_find in E.
    destruct (existsb _ _) eqn:X; [|reflexivity].
    apply existsb_exists in X as (l & Hl & Hi).
    apply includes_contains, find_contains in Hi.
    now rewrite (line_without _ _ _ E Hl) in Hi.
Qed.

Lemma releasedByTags_none packages lines released :
  (forall l, In l lines -> tagOf l = None) ->
  releasedByTags packages lines released = Resolved released.
Proof.
  induction lines as [|l lines IH]; intros H; [reflexivity|].
  rewrite releasedByTags_step, (H l) by now left.
  apply IH. intros l' Hl'. apply H. now right.
Qed.

(** X14.  When the output of the publish command holds no "New tag:",
    nothing is published and no release is asked for; in a repository
    that is one package this needs the package to be there. *)
Theorem X14_no_tag_nothing_published readChangelog getChangelogEntry
  apiCreateRelease settledAt createGithubReleases tool packages stdout :
  includes (lit "New tag:") stdout = false ->
  tool <> lit "root" \/ packages <> [] ->
  runPublish readChangelog getChangelogEntry apiCreateRelease settledAt
             createGithubReleases tool packages stdout
  = Resolved (NotPublished, []).
Proof.
  intros H Hroot. unfold runPublish.
  destruct (str_eqb tool (lit "root")) eqn:Et; cbn [negb].
  - apply str_eqb_eq in Et. destruct Hroot as [|Hp]; [contradiction|].
    destruct packages as [|pkg rest]; [congruence|].
    now rewrite rootTagged_output, H.
  - rewrite releasedByTags_none.
    + now destruct createGithubReleases.
    + intros l Hl. apply tagOf_without_literal.
      eapply line_without; [|exact Hl]. now apply includes_false_find.
Qed.

(** The statement at an output without tags, with an API that would
    refuse every release. *)
Lemma X14_no_tag_nothing_published_witness :
  runPublish Examples.changelogThere Examples.entryThere Examples.apiRefuses
             Examples.inOrder true (lit "pnpm") []
    (lit "No unpublished projects to publish" ++ [NL] ++ lit "done")
  = Resolved (NotPublished, []).
Proof.
  apply X14_no_tag_nothing_published; [reflexivity|].
  left. discriminate.
Defined.

Lemma packagesByName_get_none packages pkgName :
  (forall pkg, In pkg packages -> name pkg <> pkgName) ->
  packagesByName_get packages pkgName = None.
Proof.
  intros H. unfold packagesByName_get.
  destruct (List.find _ _) as [pkg|] eqn:E; [|reflexivity].
  apply find_some in E as [Hin Hn].
  apply str_eqb_eq in Hn. apply in_rev in Hin. now apply H in Hin.
Qed.

Lemma releasedByTags_rejects packages lines :
  forall released line pkgName,
  In line lines -> tagOf line = Some pkgName ->
  packagesByName_get packages pkgName = None ->
  exists missing,
    releasedByTags packages lines released
    = Rejected (newError (notFoundMessage missing))
    /\ packagesByName_get packages missing = None.
Proof.
  induction lines as [|l lines IH]; intros released line pkgName Hin Ht Hg;
    [contradiction|].
  rewrite releasedByTags_step.
  destruct (tagOf l) as [n|] eqn:El.
  - destruct (packagesByName_get packages n) as [pkg|] eqn:Eg.
    + destruct Hin as [->|Hin]; [congruence|]. eapply IH; eauto.
    + now exists n.
  - destruct Hin as [->|Hin]; [congruence|]. eapply IH; eauto.
Qed.

(** X15.  In a repository of several packages, a line that announces a
    name no package has makes [runPublish] fail with "Package ... not
    found", for that name or for an earlier one that is missing as well,
    whatever the other lines say. *)
Theorem X15_unknown_package_rejects readChangelog getChangelogEntry
  apiCreateRelease settledAt createGithubReleases tool packages stdout
  line pkgName :
  tool <> lit "root" ->
  In line (split [NL] stdout) ->
  tagOf line = Some pkgName ->
  (forall pkg, In pkg packages -> name pkg <> pkgName) ->
  exists missing,
    runPublish readChangelog getChangelogEntry apiCreateRelease settledAt
               createGithubReleases tool packages stdout
    = Rejected (newError (notFoundMessage missing))
    /\ forall pkg, In pkg packages -> name pkg <> missing.
Proof.
  intros Ht Hin Htag Hnone. unfold runPublish.
  apply str_eqb_neq in Ht. rewrite Ht. cbn [negb].
  destruct (releasedByTags_rejects packages _ [] line pkgName Hin Htag
              (packagesByName_get_none _ _ Hnone)) as (missing & -> & Hm).
  exists missing. split; [reflexivity|].
  intros pkg Hp Hn. unfold packagesByName_get in Hm.
  apply in_rev in Hp. pose proof (find_none _ _ Hm pkg Hp) as Hf.
  apply str_eqb_neq in Hf. contradiction.
Qed.

(** The statement at a tag of a package that is not in the repository. *)
Lemma X15_unknown_package_rejects_witness :
  exists missing,
    runPublish Examples.changelogThere Examples.entryThere
      Examples.apiAccepts Examples.inOrder false (lit "yarn")
      [{| dir := lit "packages/a"; name := lit "a"; version := lit "1.0.0" |}]
      (lit "New tag: b@2.0.0")
    = Rejected (newError (notFoundMessage missing))
    /\ forall pkg,
         In pkg [{| dir := lit "packages/a"; name := lit "a";
                    version := lit "1.0.0" |}] ->
         name pkg <> missing.
Proof.
  apply (X15_unknown_package_rejects
           Examples.changelogThere Examples.entryThere Examples.apiAccepts
           Examples.inOrder false (lit "yarn") _ _
           (lit "New tag: b@2.0.0") (lit "b")).
  - discriminate.
  - now left.
  - reflexivity.
  - intros pkg [<-|[]]. discriminate.
Defined.

(** X16.  In a repository that is one package, [runPublish] fails with
    "No package found" when there is no package.  Otherwise, exactly
    when the output holds "New tag:" somewhere, it releases the first
    package, once: if releases are wanted it calls [createRelease] for
    it with the tag "v" and the version and awaits the call, failing
    with the error of the call if the call fails; if the call succeeds,
    or if releases are not wanted, it publishes the package. *)
Theorem X16_root_repository readChangelog getChangelogEntry apiCreateRelease
  settledAt createGithubReleases stdout :
  runPublish readChangelog getChangelogEntry apiCreateRelease settledAt
             createGithubReleases (lit "root") [] stdout
  = Rejected (newError noPackageMessage)
  /\ forall pkg others,
       runPublish readChangelog getChangelogEntry apiCreateRelease settledAt
                  createGithubReleases (lit "root") (pkg :: others) stdout
       = if includes (lit "New tag:") stdout
         then
           if createGithubReleases
           then
             match fst (createRelease (readChangelog 0) getChangelogEntry
                                      (apiCreateRelease 0) pkg
                                      (lit "v" ++ version pkg)) with
             | Rejected err => Rejected err
             | Resolved _ =>
                 Resolved (Published [(name pkg, version pkg)],
                           [{| requestPkg := pkg;
                               requestTag := lit "v" ++ version pkg |}])
             end
           else Resolved (Published [(name pkg, version pkg)], [])
         else Resolved (NotPublished, []).
Proof.
  split; [reflexivity|]. intros pkg others.
  unfold runPublish. cbn [str_eqb negb].
  change (str_eqb (lit "root") (lit "root")) with true. cbn [negb].
  rewrite rootTagged_output.
  destruct (includes (lit "New tag:") stdout); [|reflexivity].
  destruct createGithubReleases; [|reflexivity].
  unfold settled. cbn [requestPkg requestTag].
  now destruct (fst (createRelease _ _ _ _ _)).
Qed.

(** In a repository that is one package, a release the API refuses makes
    the publication fail with the error of the API; without releases
    the same output publishes the package. *)
Example root_release_refused :
  runPublish Examples.changelogThere Examples.entryThere Examples.apiRefuses
             Examples.inOrder true (lit "root") [Examples.packageA]
             (lit "New tag: v1.0.0")
  = Rejected Examples.validationFailed
  /\ runPublish Examples.changelogThere Examples.entryThere
                Examples.apiRefuses Examples.inOrder false (lit "root")
                [Examples.packageA] (lit "New tag: v1.0.0")
     = Resolved (Published [(lit "a", lit "1.0.0")], []).
Proof. split; reflexivity. Qed.

Lemma releasedByTags_resolved packages lines :
  forall released result,
  releasedByTags packages lines released = Resolved result ->
  exists more,
    result = released ++ more
    /\ map name more = tagsOf lines
    /\ Forall (fun pkg => In pkg packages) more.
Proof.
  induction lines as [|l lines IH]; intros released result H.
  - injection H as <-. exists []. now rewrite app_nil_r.
  - rewrite releasedByTags_step in H. cbn [tagsOf flat_map].
    destruct (tagOf l) as [n|].
    + destruct (packagesByName_get packages n) as [pkg|] eqn:Eg;
        [|discriminate].
      destruct (IH _ _ H) as (more & -> & Hn & Hall).
      unfold packagesByName_get in Eg. apply find_some in Eg as [Hin Hname].
      apply str_eqb_eq in Hname. apply in_rev in Hin.
      exists (pkg :: more). rewrite <- app_assoc. split; [reflexivity|].
      split; [simpl; now rewrite Hname, Hn|now constructor].
    + destruct (IH _ _ H) as (more & -> & Hn & Hall).
      now exists more.
Qed.


Section Awaiting.

Variable readChangelog : nat -> Package -> outcome str.
Variable getChangelogEntry : str -> str -> outcome (option foundEntry).
Variable apiCreateRelease : nat -> releaseCall -> outcome unit.
Variable settledAt : nat -> nat.

Let settled := settled readChangelog getChangelogEntry apiCreateRelease.
Let firstRejected :=
  firstRejected readChangelog getChangelogEntry apiCreateRelease settledAt.
Let awaitAll :=
  awaitAll readChangelog getChangelogEntry apiCreateRelease settledAt.

Lemma settled_unit i request u :
  settled i request = Resolved u -> settled i request = Resolved tt.
Proof. now destruct u. Qed.

(** A rejection seen before is never forgotten. *)
Lemma firstRejected_kept requests :
  forall i seen, firstRejected i requests (Some seen) <> None.
Proof.
  induction requests as [|request rest IH]; intros i seen; [discriminate|].
  unfold firstRejected, Publish.firstRejected; fold Publish.firstRejected.
  destruct (Publish.settled _ _ _ i request); [apply IH|].
  destruct seen as [moment e].
  destruct (moment <=? settledAt i); apply IH.
Qed.

Lemma firstRejected_none requests :
  forall i,
  firstRejected i requests None = None ->
  forall k request,
    nth_error requests k = Some request ->
    settled (i + k) request = Resolved tt.
Proof.
  induction requests as [|request rest IH]; intros i H k r Hk;
    [now destruct k|].
  unfold firstRejected, Publish.firstRejected in H;
    fold Publish.firstRejected in H.
  destruct (Publish.settled _ _ _ i request) as [u|e] eqn:E.
  - destruct k as [|k].
    + injection Hk as <-. rewrite Nat.add_0_r.
      now apply (settled_unit _ _ u).
    + rewrite Nat.add_succ_r. apply (IH (S i) H k r Hk).
  - exfalso. revert H. apply firstRejected_kept.
Qed.


(** Awaiting all the calls succeeds exactly when each of them does. *)
Lemma awaitAll_resolved requests u :
  awaitAll requests = Resolved u ->
  forall i request,
    nth_error requests i = Some request -> settled i request = Resolved tt.
Proof.
  unfold awaitAll, Publish.awaitAll. intros H i request Hi.
  destruct (Publish.firstRejected _ _ _ _ 0 requests None) as [[m e]|] eqn:E;
    [discriminate|].
  apply (firstRejected_none requests 0 E i request Hi).
Qed.


End Awaiting.

(** X17.  In a repository of several packages, when [runPublish]
    succeeds, the packages it has released are packages of the
    repository and their names are the names the lines of the output
    announce, line by line; the result lists their names and versions
    and is "not published" only when there are none, and the releases
    asked for, if releases are wanted, are tagged with name, "@" and
    version; each of these calls of [createRelease] has succeeded. *)
Theorem X17_published_as_announced readChangelog getChangelogEntry
  apiCreateRelease settledAt createGithubReleases tool packages stdout
  result requests :
  tool <> lit "root" ->
  runPublish readChangelog getChangelogEntry apiCreateRelease settledAt
             createGithubReleases tool packages stdout
  = Resolved (result, requests) ->
  exists released,
    map name released = tagsOf (split [NL] stdout)
    /\ Forall (fun pkg => In pkg packages) released
    /\ result = match released with
                | [] => NotPublished
                | _ :: _ =>
                    Published (map (fun pkg => (name pkg, version pkg))
                                   released)
                end
    /\ requests =
       (if createGithubReleases
        then map (fun pkg =>
                    {| requestPkg := pkg;
                       requestTag := name pkg ++ lit "@" ++ version pkg |})
                 released
        else [])
    /\ forall i request,
         nth_error requests i = Some request ->
         fst (createRelease (readChangelog i) getChangelogEntry
                            (apiCreateRelease i)
                            (requestPkg request) (requestTag request))
         = Resolved tt.
Proof.
  intros Ht H. unfold runPublish in H.
  apply str_eqb_neq in Ht. rewrite Ht in H. cbn [negb] in H.
  destruct (releasedByTags packages (split [NL] stdout) [])
    as [released|] eqn:E; [|discriminate].
  destruct (releasedByTags_resolved _ _ _ _ E) as (more & Hr & Hn & Hall).
  simpl in Hr. subst more. exists released.
  split; [exact Hn|]. split; [exact Hall|].
  destruct createGithubReleases.
  - destruct (awaitAll _ _ _ _ _) as [u|e] eqn:Ea; [|discriminate].
    pose proof (awaitAll_resolved _ _ _ _ _ _ Ea) as Hres.
    destruct released; injection H as <- <-; (split; [reflexivity|]);
      (split; [reflexivity|]); exact Hres.
  - destruct released; injection H as <- <-; (split; [reflexivity|]);
      (split; [reflexivity|]); intros [|i] request; discriminate.
Qed.

(** The statement at an output with two tags among other lines. *)
Lemma X17_published_as_announced_witness :
  exists released,
    map name released = [lit "@acme/b"; lit "a"]
    /\ Published [(lit "@acme/b", lit "2.0.0-rc.1"); (lit "a", lit "1.0.0")]
       = match released with
         | [] => NotPublished
         | _ :: _ =>
             Published (map (fun pkg => (name pkg, version pkg)) released)
         end.
Proof.
  destruct (X17_published_as_announced
              Examples.changelogThere Examples.entryThere
              Examples.apiAccepts Examples.inOrder true (lit "pnpm")
              [{| dir := lit "packages/a"; name := lit "a";
                  version := lit "1.0.0" |};
               {| dir := lit "packages/b"; name := lit "@acme/b";
                  version := lit "2.0.0-rc.1" |}]
              (lit "publishing" ++ [NL] ++ lit "New tag: @acme/b@2.0.0-rc.1"
               ++ [NL] ++ lit "New tag:  a@1.0.0")
              _ _ ltac:(discriminate) eq_refl)
    as (released & Hn & _ & Hr & _).
  exists released. split; [exact Hn|exact Hr].
Defined.


(** Of two releases that fail, the one that fails first gives the error
    of the publication. *)
Example first_failure_wins :
  runPublish Examples.changelogThere Examples.entryThere
             Examples.apiRefusesEach Examples.inOrder true (lit "pnpm")
             [Examples.packageA; Examples.packageB]
             (lit "New tag: @acme/b@2.0.0-rc.1" ++ [NL]
              ++ lit "New tag:  a@1.0.0")
  = Rejected {| code := Undefined; message := lit "@acme/b@2.0.0-rc.1" |}
  /\ runPublish Examples.changelogThere Examples.entryThere
                Examples.apiRefusesEach Examples.secondFirst true (lit "pnpm")
                [Examples.packageA; Examples.packageB]
                (lit "New tag: @acme/b@2.0.0-rc.1" ++ [NL]
                 ++ lit "New tag:  a@1.0.0")
     = Rejected {| code := Undefined; message := lit "a@1.0.0" |}.
Proof. split; reflexivity. Qed.


End Publishing.

(* ================================================================== *)
(** ** [createRelease] *)
(* ================================================================== *)

Section Releases.

Import Publish.

Variable readChangelog : Package -> outcome str.
Variable getChangelogEntry : str -> str -> outcome (option foundEntry).
Variable apiCreateRelease : releaseCall -> outcome unit.

Let attempt := attemptRelease readChangelog getChangelogEntry apiCreateRelease.
Let create := createRelease readChangelog getChangelogEntry apiCreateRelease.

(** The handler of [createRelease], on what the attempt gives. *)
Lemma createRelease_handler pkg tagName :
  create pkg tagName =
  (match fst (attempt pkg tagName) with
   | Resolved u => Resolved u
   | Rejected err =>
       match code err with
       | Str c => if str_eqb c (lit "ENOENT") then Resolved tt
                  else Rejected err
       | Undefined => Rejected err
       end
   end, snd (attempt pkg tagName)).
Proof.
  unfold create, attempt, createRelease.
  destruct (attemptRelease _ _ _ pkg tagName) as [[u|err] calls];
    cbn [fst snd]; [reflexivity|].
  destruct (code err) as [|c]; [reflexivity|].
  now destruct (str_eqb c (lit "ENOENT")).
Qed.

Lemma handler_passes (err : jsError) :
  code err <> Str (lit "ENOENT") ->
  match code err with
  | Str c => if str_eqb c (lit "ENOENT") then Resolved tt else Rejected err
  | Undefined => Rejected err
  end = Rejected err.
Proof.
  intros H. destruct (code err) as [|c]; [reflexivity|].
  destruct (str_eqb c (lit "ENOENT")) eqn:E; [|reflexivity].
  apply str_eqb_eq in E. congruence.
Qed.

Lemma handler_swallows (err : jsError) :
  code err = Str (lit "ENOENT") ->
  match code err with
  | Str c => if str_eqb c (lit "ENOENT") then Resolved tt else Rejected err
  | Undefined => Rejected err
  end = Resolved tt.
Proof. intros ->. now rewrite str_eqb_refl. Qed.

Lemma handler_rejects (e err : jsError) :
  match code e with
  | Str c => if str_eqb c (lit "ENOENT") then Resolved tt else Rejected e
  | Undefined => Rejected e
  end = Rejected err ->
  code err <> Str (lit "ENOENT") /\ e = err.
Proof.
  destruct (code e) as [|c] eqn:Ec.
  - intros [= <-]. split; [congruence|reflexivity].
  - destruct (str_eqb c (lit "ENOENT")) eqn:E; [discriminate|].
    intros [= <-]. split; [|reflexivity].
    apply str_eqb_neq in E. congruence.
Qed.

(** X18.  [createRelease] never fails with an error whose code is
    "ENOENT": such an error of the attempt, from reading the changelog,
    from the changelog parser or from the API, ends the call quietly.
    Every other error of the attempt comes out as it is, an attempt that
    succeeds is a call that succeeds, and the handler adds no call of
    the API.  In particular an error without that code from reading the
    changelog or from the parser is the error of the call, with the API
    not called; when the changelog cannot be read or has no entry for
    the version, the API is not called, and the missing entry is an
    error that names the package and the version; when the entry is
    found, the API is called once, with the tag as name and as tag name,
    the content of the entry as body and [prerelease] set exactly when
    the version holds a hyphen, and what the API answers is what the
    call gives, an error without the code "ENOENT" included.  The API is
    never called more than once. *)
Theorem X18_createRelease_lets_ENOENT_pass pkg tagName :
  (forall err,
     fst (create pkg tagName) = Rejected err ->
     code err <> Str (lit "ENOENT")
     /\ fst (attempt pkg tagName) = Rejected err)
  /\ (forall err,
        fst (attempt pkg tagName) = Rejected err ->
        code err = Str (lit "ENOENT") ->
        fst (create pkg tagName) = Resolved tt)
  /\ (forall err,
        fst (attempt pkg tagName) = Rejected err ->
        code err <> Str (lit "ENOENT") ->
        fst (create pkg tagName) = Rejected err)
  /\ (forall u,
        fst (attempt pkg tagName) = Resolved u ->
        fst (create pkg tagName) = Resolved u)
  /\ snd (create pkg tagName) = snd (attempt pkg tagName)
  /\ (forall err,
        readChangelog pkg = Rejected err -> snd (create pkg tagName) = [])
  /\ (forall err,
        readChangelog pkg = Rejected err ->
        code err <> Str (lit "ENOENT") ->
        create pkg tagName = (Rejected err, []))
  /\ (forall changelog err,
        readChangelog pkg = Resolved changelog ->
        getChangelogEntry changelog (version pkg) = Rejected err ->
        code err <> Str (lit "ENOENT") ->
        create pkg tagName = (Rejected err, []))
  /\ (forall changelog,
        readChangelog pkg = Resolved changelog ->
        getChangelogEntry changelog (version pkg) = Resolved None ->
        create pkg tagName
        = (Rejected (newError (lit "Could not find changelog entry for "
                               ++ name pkg ++ lit "@" ++ version pkg)),
           []))
  /\ (forall changelog changelogEntry,
        readChangelog pkg = Resolved changelog ->
        getChangelogEntry changelog (version pkg)
        = Resolved (Some changelogEntry) ->
        let call := {| release_name := tagName;
                       tag_name := tagName;
                       body := foundContent changelogEntry;
                       prerelease := includes (lit "-") (version pkg) |} in
        snd (create pkg tagName) = [call]
        /\ (forall u,
              apiCreateRelease call = Resolved u ->
              fst (create pkg tagName) = Resolved u)
        /\ (forall err,
              apiCreateRelease call = Rejected err ->
              code err <> Str (lit "ENOENT") ->
              fst (create pkg tagName) = Rejected err))
  /\ (forall call,
        In call (snd (create pkg tagName)) ->
        snd (create pkg tagName) = [call]
        /\ release_name call = tagName /\ tag_name call = tagName
        /\ prerelease call = includes (lit "-") (version pkg)).
Proof.
  rewrite createRelease_handler. cbn [fst snd].
  split; [|split; [|split; [|split; [|split; [|split; [|split;
    [|split; [|split; [|split]]]]]]]]].
  - intros err H.
    destruct (fst (attempt pkg tagName)) as [u|e]; [discriminate|].
    apply handler_rejects in H as [H ->]. now split.
  - intros err -> Hc. now apply handler_swallows.
  - intros err -> Hc. now apply handler_passes.
  - now intros u ->.
  - reflexivity.
  - intros err H. unfold attempt, attemptRelease. now rewrite H.
  - intros err H Hc. unfold attempt, attemptRelease. rewrite H.
    cbn [fst snd]. now rewrite handler_passes.
  - intros changelog err H1 H2 Hc. unfold attempt, attemptRelease.
    rewrite H1, H2. cbn [fst snd]. now rewrite handler_passes.
  - intros changelog H1 H2. unfold attempt, attemptRelease.
    rewrite H1, H2. reflexivity.
  - intros changelog changelogEntry H1 H2.
    unfold attempt, attemptRelease. rewrite H1, H2. cbn [fst snd].
    split; [reflexivity|]. split.
    + now intros u ->.
    + intros err -> Hc. now apply handler_passes.
  - intros call. unfold attempt, attemptRelease.
    destruct (readChangelog pkg) as [changelog|e]; [|intros []].
    destruct (getChangelogEntry changelog (version pkg)) as [[entry|]|e];
      [|intros []|intros []].
    cbn [snd]. intros [<-|[]]. repeat split.
Qed.

End Releases.

(** The statement at a package without changelog file and at one whose
    release the API refuses. *)
Lemma X18_createRelease_lets_ENOENT_pass_witness :
  Publish.createRelease
    (fun _ => Publish.Rejected
                {| Publish.code := Str (lit "ENOENT");
                   Publish.message := lit "no such file or directory" |})
    (fun _ _ => Publish.Resolved None)
    (fun _ => Publish.Resolved tt)
    Examples.packageB (lit "@acme/b@2.0.0-rc.1")
  = (Publish.Resolved tt, [])
  /\ Publish.createRelease
       (Examples.changelogThere 0) Examples.entryThere
       (Examples.apiRefuses 0)
       Examples.packageB (lit "@acme/b@2.0.0-rc.1")
     = (Publish.Rejected Examples.validationFailed,
        [{| Publish.release_name := lit "@acme/b@2.0.0-rc.1";
            Publish.tag_name := lit "@acme/b@2.0.0-rc.1";
            Publish.body := lit "- x";
            Publish.prerelease := true |}]).
Proof.
  split.
  - pose proof (X18_createRelease_lets_ENOENT_pass
      (fun _ => Publish.Rejected
                  {| Publish.code := Str (lit "ENOENT");
                     Publish.message := lit "no such file or directory" |})
      (fun _ _ => Publish.Resolved None)
      (fun _ => Publish.Resolved tt)
      Examples.packageB (lit "@acme/b@2.0.0-rc.1"))
      as (_ & Hquiet & _ & _ & _ & Hnone & _).
    apply injective_projections.
    + exact (Hquiet _ eq_refl eq_refl).
    + exact (Hnone _ eq_refl).
  - pose proof (X18_createRelease_lets_ENOENT_pass
      (Examples.changelogThere 0) Examples.entryThere (Examples.apiRefuses 0)
      Examples.packageB (lit "@acme/b@2.0.0-rc.1"))
      as (_ & _ & _ & _ & _ & _ & _ & _ & _ & Hfound & _).
    destruct (Hfound _ _ eq_refl eq_refl) as (Hcalls & _ & Hpass).
    apply injective_projections.
    + apply (Hpass _ eq_refl). discriminate.
    + exact Hcalls.
Defined.

(* ================================================================== *)
(** ** The heading of the earlier revision *)
(* ================================================================== *)

Section Headings.

Import Filtered.

Lemma notNL_forallb s : oneLine s -> forallb notNL s = true.
Proof.
  unfold oneLine. induction s as [|c s IH]; intros H; [reflexivity|].
  simpl. rewrite IH by (intros Hin; apply H; now right).
  unfold notNL. destruct (c =? NL)%N eqn:E; [|reflexivity].
  apply N.eqb_eq in E. exfalso. apply H. now left.
Qed.

Lemma nonblank_notNL c : isWhiteSpace c = false -> notNL c = true.
Proof.
  intros H. unfold notNL. destruct (c =? NL)%N eqn:E; [|reflexivity].
  apply N.eqb_eq in E. subst c. discriminate.
Qed.

Lemma group_step s :
  Regex.matchAt (Regex.Group 1 (Regex.Rep notNL 1)) s []
                (fun _ caps => Some caps)
  = option_map (fun g => [(1, g)]) (groupAt s 0).
Proof.
  unfold groupAt. cbn [Regex.matchAt skipn].
  destruct s as [|c t]; [reflexivity|].
  cbn [takeWhile]. destruct (notNL c) eqn:E; [|reflexivity].
  cbn [length Nat.ltb Nat.leb].
  rewrite (tryLengths_top _ _ _ _ _ [(1, c :: takeWhile notNL t)]);
    [reflexivity|].
  do 3 f_equal. rewrite length_skipn. cbn [length].
  pose proof (takeWhile_length notNL t) as Hle.
  replace (S (length t) - (S (length t) - S (length (takeWhile notNL t))))
    with (S (length (takeWhile notNL t))) by lia.
  cbn [firstn]. now rewrite firstn_takeWhile.
Qed.

Lemma groupAt_shift rest n : groupAt rest n = groupAt (skipn n rest) 0.
Proof. reflexivity. Qed.

Lemma backtrack_tryLengths rest n :
  Regex.tryLengths
    (fun s' => Regex.matchAt (Regex.Group 1 (Regex.Rep notNL 1)) s' []
                             (fun _ caps => Some caps)) rest 0 n
  = option_map (fun g => [(1, g)]) (backtrack rest n).
Proof.
  induction n as [|n IH]; cbn [Regex.tryLengths backtrack];
    rewrite group_step, <- groupAt_shift;
    destruct (groupAt rest _); try reflexivity.
  exact IH.
Qed.

(** The matcher of [Regex] finds what [matchGroup] finds. *)
Lemma matchGroup_is_exec s :
  Regex.exec headingRegex s = option_map (fun g => [(1, g)]) (matchGroup s).
Proof.
  assert (H : forall t,
            Regex.matchAt headingRegex t [] (fun _ caps => Some caps)
            = option_map (fun g => [(1, g)]) (matchHere t)).
  { intros t. unfold headingRegex, matchHere. cbn [Regex.matchAt].
    destruct (startsWith (lit "##") t); [|reflexivity].
    change (length (lit "##")) with 2.
    cbn [Nat.ltb Nat.leb]. apply backtrack_tryLengths. }
  induction s as [|c s IH].
  - cbn [Regex.exec matchGroup]. rewrite H. now destruct (matchHere []).
  - rewrite exec_cons, H. cbn [matchGroup].
    destruct (matchHere (c :: s)); [reflexivity|exact IH].
Qed.

Lemma matchGroup_here s g : matchHere s = Some g -> matchGroup s = Some g.
Proof. intros H. destruct s; cbn [matchGroup]; now rewrite H. Qed.

Variables toUpperCase toLowerCase : str -> str.

(** X19.  The heading the earlier revision gives a package.  When the
    formatted name holds no line feed and opens with a code unit that
    is no blank, the heading is the formatted name as it is, blanks at
    its end included.  When the formatted name is empty, as for a name
    without hyphen, and the changelog text opens with a code unit that
    is no blank, the heading is the first line of the changelog text. *)
Theorem X19_heading_of_earlier_revision pkg c rest :
  (splitAndCapitalize toUpperCase toLowerCase (packageName pkg) = c :: rest ->
   isWhiteSpace c = false -> oneLine rest ->
   matchGroup (content (makeEntry toUpperCase toLowerCase pkg))
   = Some (c :: rest))
  /\ (splitAndCapitalize toUpperCase toLowerCase (packageName pkg) = [] ->
      entryContent pkg = c :: rest ->
      isWhiteSpace c = false ->
      matchGroup (content (makeEntry toUpperCase toLowerCase pkg))
      = Some (c :: takeWhile notNL rest)).
Proof.
  split.
  - intros Ht Hc Hrest. unfold makeEntry. cbn [content]. rewrite Ht.
    change (lit "## " ++ (c :: rest) ++ [NL; NL] ++ entryContent pkg)
      with (35%N :: 35%N :: 32%N :: c
            :: rest ++ NL :: NL :: entryContent pkg).
    apply matchGroup_here. unfold matchHere.
    change (startsWith (lit "##") (35%N :: 35%N :: ?x)) with true.
    cbn iota. cbn [skipn takeWhile].
    change (isWhiteSpace 32) with true. cbn iota. rewrite Hc.
    cbn [length backtrack groupAt skipn].
    rewrite (nonblank_notNL _ Hc).
    now rewrite (takeWhile_stop notNL rest NL _ (notNL_forallb _ Hrest)).
  - intros Ht He Hc. unfold makeEntry. cbn [content]. rewrite Ht, He.
    change (lit "## " ++ [] ++ [NL; NL] ++ c :: rest)
      with (35%N :: 35%N :: 32%N :: NL :: NL :: c :: rest).
    apply matchGroup_here. unfold matchHere.
    change (startsWith (lit "##") (35%N :: 35%N :: ?x)) with true.
    cbn iota. cbn [skipn takeWhile].
    change (isWhiteSpace 32) with true. change (isWhiteSpace NL) with true.
    cbn iota. rewrite Hc.
    cbn [length backtrack groupAt skipn].
    now rewrite (nonblank_notNL _ Hc).
Qed.

End Headings.

(** The statement at the packages [core-utils] and [core]. *)
Lemma X19_heading_of_earlier_revision_witness :
  Filtered.matchGroup
    (content (makeEntry asciiUpper asciiLower
                {| packageName := lit "core-utils";
                   packagePrivate := false;
                   entryHighestLevel := 1;
                   entryContent := lit "### Patch Changes" |}))
  = Some (lit "Utils")
  /\ Filtered.matchGroup
       (content (makeEntry asciiUpper asciiLower Examples.noHyphenPackage))
     = Some (lit "### Patch Changes").
Proof.
  split.
  - refine (proj1 (X19_heading_of_earlier_revision asciiUpper asciiLower
                     {| packageName := lit "core-utils";
                        packagePrivate := false;
                        entryHighestLevel := 1;
                        entryContent := lit "### Patch Changes" |}
                     85%N (lit "tils")) eq_refl eq_refl _).
    vm_compute. intros H.
    repeat (destruct H as [H|H]; [discriminate|]). exact H.
  - exact (proj2 (X19_heading_of_earlier_revision asciiUpper asciiLower
                    Examples.noHyphenPackage 35%N
                    (lit "## Patch Changes" ++ [NL; NL] ++ lit "- y"))
                 eq_refl eq_refl eq_refl).
Defined.
